(** * CP2K accelerator layer: OpenCL events and libxstream offload regions

    Shallow embedding of
      - src/acc/opencl/acc_opencl_event.c   (module [AccOpenCL])
      - src/acc/mic/libxstream/include/libxstream_macros.h (module [Libxstream])
    together with the properties of the stream/event abstraction that the
    specification states about them. *)

From Stdlib Require Import ZArith List Bool Lia.
From stdpp Require Import gmap.

Local Open Scope Z_scope.

(** ** Host memory

    The event code works through raw pointers: the caller's handle variable,
    the [malloc]ed cell that holds the [cl_event], the caller's [int] that
    receives the query answer and the scratch buffer of the query.  Memory is a
    finite map from addresses to blocks; an address names a whole block (the
    code does no pointer arithmetic), and an access outside a live block is
    undefined behaviour, modelled by [None]. *)
Module Mem.

Definition NULL : Z := 0.

Record block := Block {
  blk_size : Z;           (* size in bytes *)
  blk_val  : option Z;    (* contents; [None] while uninitialised *)
  blk_heap : bool         (* obtained from malloc (and so may be freed) *)
}.

Record heap := Heap {
  cells : gmap Z block;   (* the live blocks *)
  avail : Z               (* bytes the allocator can still hand out *)
}.

(** A pointer that may be dereferenced: not null, and into a live block. *)
Definition live (h : heap) (p : Z) : Prop := p <> NULL /\ is_Some (cells h !! p).

Definition load (p : Z) (h : heap) : option Z :=
  if p =? NULL then None
  else match cells h !! p with
       | Some b => blk_val b
       | None => None
       end.

Definition store (p v : Z) (h : heap) : option heap :=
  if p =? NULL then None
  else match cells h !! p with
       | Some b =>
           Some (Heap (<[p := Block (blk_size b) (Some v) (blk_heap b)]> (cells h))
                      (avail h))
       | None => None
       end.

(** [malloc n]: the null pointer when the request cannot be served, otherwise
    a non-null address that is not in use, holding an uninitialised block. *)
Definition malloc (n : Z) (h : heap) : Z * heap :=
  if n <=? avail h then
    let p := fresh ({[NULL]} ∪ dom (cells h)) in
    (p, Heap (<[p := Block n None true]> (cells h)) (avail h - n))
  else (NULL, h).

(** [free p]: nothing for the null pointer; releases a live malloc block;
    anything else is undefined. *)
Definition free (p : Z) (h : heap) : option heap :=
  if p =? NULL then Some h
  else match cells h !! p with
       | Some b =>
           if blk_heap b then Some (Heap (delete p (cells h)) (avail h + blk_size b))
           else None
       | None => None
       end.

(** What [acc_event_destroy] needs of a handle to stay within defined
    behaviour: a non-null pointer to an initialised block that came from
    [malloc]. *)
Definition destroyable (h : heap) (p : Z) : Prop :=
  p <> NULL /\
  exists n v, cells h !! p = Some (Block n (Some v) true).

End Mem.

(** ** A state monad with undefined behaviour

    Both parts of the code thread mutable state through calls and may
    dereference pointers; [None] stands for undefined behaviour. *)
Module UB.

Definition M (S A : Type) : Type := S -> option (A * S).

Definition ret {S A} (a : A) : M S A := fun s => Some (a, s).
Definition bind {S A B} (m : M S A) (k : A -> M S B) : M S B :=
  fun s => match m s with
           | Some (a, s') => k a s'
           | None => None
           end.
Definition undefined {S A} : M S A := fun _ => None.

Module Notations.
Notation "'let*' x ':=' m 'in' k" := (bind m (fun x => k))
  (at level 10, x pattern, m at level 99, k at level 200).
Notation "m ';;' k" := (bind m (fun _ => k))
  (at level 100, k at level 200, right associativity).
End Notations.

End UB.

(** ** The OpenCL event backend: acc_opencl_event.c *)
Module AccOpenCL.
Import Mem UB UB.Notations.

(** Constants of CL/cl.h used by the file. *)
Definition CL_SUCCESS : Z := 0.
Definition CL_COMPLETE : Z := 0.
Definition CL_RUNNING : Z := 1.
Definition CL_SUBMITTED : Z := 2.
Definition CL_QUEUED : Z := 3.
Definition CL_OUT_OF_RESOURCES : Z := -5.
Definition CL_INVALID_VALUE : Z := -30.
Definition CL_INVALID_CONTEXT : Z := -34.
Definition CL_INVALID_COMMAND_QUEUE : Z := -36.
Definition CL_INVALID_EVENT : Z := -58.
Definition CL_INVALID_OPERATION : Z := -59.
Definition CL_EVENT_COMMAND_EXECUTION_STATUS : Z := 4563. (* 0x11D3 *)

Definition sizeof_cl_event : Z := 8.
Definition sizeof_char : Z := 1.
Definition SIZE_T_MODULUS : Z := 2 ^ 64.   (* size_t arithmetic wraps modulo this *)

(** The device API the file calls.  It belongs to the OpenCL library, not to
    the repository, so it is an interface over an abstract device state [D];
    every operation returns its outputs together with the new device state.
    Pointer arguments that the library only writes through are passed as the
    pointer value; what the library wants written comes back as an option.
    [clWaitForEvents] blocks the host until the events are complete: the
    interface gives the call as it comes back, and a wait that never does
    has no counterpart here. *)
Record cl_api (D : Type) := ClApi {
  (* cl_event clCreateUserEvent(ctx, &errcode): (event, errcode) *)
  clCreateUserEvent : Z -> D -> (Z * Z) * D;
  (* cl_int clSetUserEventStatus(event, status) *)
  clSetUserEventStatus : Z -> Z -> D -> Z * D;
  (* cl_int clReleaseEvent(event) *)
  clReleaseEvent : Z -> D -> Z * D;
  (* cl_int clEnqueueMarker(queue, cl_event *event):
     (status, event written through the pointer if any) *)
  clEnqueueMarker : Z -> Z -> D -> (Z * option Z) * D;
  (* cl_int clGetEventInfo(event, name, size, value, size_ret):
     (status, data written to value if any, size written to size_ret if any) *)
  clGetEventInfo : Z -> Z -> Z -> Z -> bool -> D -> (Z * option Z * option Z) * D;
  (* cl_int clEnqueueWaitForEvents(queue, n, list) *)
  clEnqueueWaitForEvents : Z -> list Z -> D -> Z * D;
  (* cl_int clWaitForEvents(n, list) *)
  clWaitForEvents : list Z -> D -> Z * D
}.
Arguments ClApi {D}.
Arguments clCreateUserEvent {D}.
Arguments clSetUserEventStatus {D}.
Arguments clReleaseEvent {D}.
Arguments clEnqueueMarker {D}.
Arguments clGetEventInfo {D}.
Arguments clEnqueueWaitForEvents {D}.
Arguments clWaitForEvents {D}.

(** Program state: host memory, the global [cl_error], the context of
    [*acc_opencl_my_device] and the device. *)
Record state (D : Type) := State {
  mem : heap;
  cl_error : Z;
  my_device_ctx : Z;
  dev : D
}.
Arguments State {D}.
Arguments mem {D}.
Arguments cl_error {D}.
Arguments my_device_ctx {D}.
Arguments dev {D}.

(** Modelled from the spec: [acc_opencl_error_check] lives in
    acc_opencl_error.h/.c, which is not part of the sources at hand.  The
    specification has every operation fail exactly when "the underlying device
    API rejected the call", so the check answers true (non-zero) iff the code
    it is given is not [CL_SUCCESS]; the line number only feeds the
    diagnostic. *)
Definition acc_opencl_error_check (err : Z) (line : Z) : bool :=
  negb (err =? CL_SUCCESS).

Definition M (D A : Type) : Type := UB.M (state D) A.

Section Ops.
Context {D : Type} (api : cl_api D).

(* memory *)
Definition m_load (p : Z) : M D Z :=
  fun s => match load p (mem s) with
           | Some v => Some (v, s)
           | None => None
           end.
Definition m_store (p v : Z) : M D unit :=
  fun s => match store p v (mem s) with
           | Some h => Some (tt, State h (cl_error s) (my_device_ctx s) (dev s))
           | None => None
           end.
Definition m_malloc (n : Z) : M D Z :=
  fun s => let '(p, h) := malloc n (mem s) in
           Some (p, State h (cl_error s) (my_device_ctx s) (dev s)).
Definition m_free (p : Z) : M D unit :=
  fun s => match free p (mem s) with
           | Some h => Some (tt, State h (cl_error s) (my_device_ctx s) (dev s))
           | None => None
           end.

(* globals *)
Definition get_cl_error : M D Z := fun s => Some (cl_error s, s).
Definition set_cl_error (e : Z) : M D unit :=
  fun s => Some (tt, State (mem s) e (my_device_ctx s) (dev s)).
Definition get_ctx : M D Z := fun s => Some (my_device_ctx s, s).

(* a call into the device API *)
Definition call {A} (f : D -> A * D) : M D A :=
  fun s => let '(a, d) := f (dev s) in
           Some (a, State (mem s) (cl_error s) (my_device_ctx s) d).

(* a local that may not have been assigned yet *)
Definition m_local (o : option Z) : M D Z :=
  match o with Some v => ret v | None => undefined end.

(** [int acc_event_create (void** event_p)] *)
Definition acc_event_create (event_p : Z) : M D Z :=
  let* p := m_malloc sizeof_cl_event in
  m_store event_p p ;;                               (* *event_p = malloc(..) *)
  let* clevent := m_load event_p in
  let* ctx := get_ctx in
  let* (ev, err) := call (clCreateUserEvent api ctx) in
  set_cl_error err ;;
  m_store clevent ev ;;                              (* *clevent = ..        *)
  let* e := get_cl_error in
  if acc_opencl_error_check e 38 then ret (-1) else
  let* ev' := m_load clevent in
  let* r := call (clSetUserEventStatus api ev' CL_COMPLETE) in
  set_cl_error r ;;
  ret 0.

(** [int acc_event_destroy (void* event)] *)
Definition acc_event_destroy (event : Z) : M D Z :=
  let clevent := event in
  let* ev := m_load clevent in
  let* r := call (clReleaseEvent api ev) in
  set_cl_error r ;;
  let* e := get_cl_error in
  if acc_opencl_error_check e 71 then ret (-1) else
  m_free clevent ;;
  ret 0.

(** [int acc_event_record (void* event, void* stream)]; the stream object is
    read only for its [queue] member. *)
Definition acc_event_record (event stream : Z) : M D Z :=
  let clevent := event in
  let clstream := stream in
  let* queue := m_load clstream in
  let* (r, w) := call (clEnqueueMarker api queue clevent) in
  match w with Some ev => m_store clevent ev | None => ret tt end ;;
  set_cl_error r ;;
  let* e := get_cl_error in
  if acc_opencl_error_check e 100 then ret (-1) else
  ret 0.

(** [int acc_event_query (void* event, int* has_occured)] *)
Definition acc_event_query (event has_occured : Z) : M D Z :=
  let param_value := NULL in
  let clevent := event in
  let* ev := m_load clevent in
  let* (r, _, size_ret) :=
    call (clGetEventInfo api ev CL_EVENT_COMMAND_EXECUTION_STATUS 0 NULL true) in
  let param_value_size := size_ret in
  set_cl_error r ;;
  let* e := get_cl_error in
  if acc_opencl_error_check e 135 then ret (-1) else
  let* n := m_local param_value_size in
  let* param_value := m_malloc ((n * sizeof_char) mod SIZE_T_MODULUS) in
  let* ev := m_load clevent in
  let* (r, data, _) :=
    call (clGetEventInfo api ev CL_EVENT_COMMAND_EXECUTION_STATUS n param_value false) in
  match data with
  | Some v => if param_value =? NULL then ret tt else m_store param_value v
  | None => ret tt
  end ;;
  set_cl_error r ;;
  let* e := get_cl_error in
  if acc_opencl_error_check e 140 then ret (-1) else
  (if param_value =? CL_COMPLETE
   then m_store has_occured 1
   else m_store has_occured 0) ;;
  m_free param_value ;;
  ret 0.

(** [int acc_stream_wait_event (void* stream, void* event)] *)
Definition acc_stream_wait_event (stream event : Z) : M D Z :=
  let clevent := event in
  let clstream := stream in
  let* queue := m_load clstream in
  let* ev := m_load clevent in
  let* r := call (clEnqueueWaitForEvents api queue [ev]) in
  set_cl_error r ;;
  let* e := get_cl_error in
  if acc_opencl_error_check e 179 then ret (-1) else
  ret 0.

(** [int acc_event_synchronize (void* event)] *)
Definition acc_event_synchronize (event : Z) : M D Z :=
  let clevent := event in
  let* ev := m_load clevent in
  let* r := call (clWaitForEvents api [ev]) in
  set_cl_error r ;;
  let* e := get_cl_error in
  if acc_opencl_error_check e 206 then ret (-1) else
  ret 0.

(** The six operations of the event interface, as one type. *)
Inductive event_op :=
  | Create (event_p : Z)
  | Destroy (event : Z)
  | Record_ (event stream : Z)
  | Query (event has_occured : Z)
  | WaitEvent (stream event : Z)
  | Synchronize (event : Z).

Definition run_op (o : event_op) : M D Z :=
  match o with
  | Create event_p => acc_event_create event_p
  | Destroy event => acc_event_destroy event
  | Record_ event stream => acc_event_record event stream
  | Query event has_occured => acc_event_query event has_occured
  | WaitEvent stream event => acc_stream_wait_event stream event
  | Synchronize event => acc_event_synchronize event
  end.


End Ops.

(** *** A reference device

    An executable instance of the interface that follows the OpenCL 1.1
    description of the seven calls, used to run the operations on concrete
    inputs.  Device-side progress is not simulated beyond what the calls
    themselves do: a marker starts out [CL_QUEUED], and a host wait returns
    with the awaited events complete.  [script] injects failures: every call
    takes the head of the script, and a non-zero head makes that call fail
    with this code and without effect. *)
Module RefCL.

Record cl_event_obj := EventObj {
  ev_ctx : Z;
  ev_status : Z;
  ev_user : bool;
  ev_refs : Z
}.

Record device := Device {
  contexts : gset Z;
  queues : gmap Z Z;               (* command queue -> its context *)
  events : gmap Z cl_event_obj;
  script : list Z
}.

Definition with_events (ev : gmap Z cl_event_obj) (d : device) : device :=
  Device (contexts d) (queues d) ev (script d).

Definition scripted {A} (fail : Z -> A) (run : device -> A * device)
    (d : device) : A * device :=
  match script d with
  | [] => run d
  | c :: rest =>
      let d' := Device (contexts d) (queues d) (events d) rest in
      if c =? CL_SUCCESS then run d' else (fail c, d')
  end.

Definition new_event (d : device) : Z := fresh ({[0]} ∪ dom (events d)).

Definition ref_clCreateUserEvent (ctx : Z) : device -> (Z * Z) * device :=
  scripted (fun c => (0, c)) (fun d =>
    if decide (ctx ∈ contexts d) then
      let e := new_event d in
      ((e, CL_SUCCESS), with_events (<[e := EventObj ctx CL_SUBMITTED true 1]> (events d)) d)
    else ((0, CL_INVALID_CONTEXT), d)).

Definition ref_clSetUserEventStatus (ev st : Z) : device -> Z * device :=
  scripted (fun c => c) (fun d =>
    match events d !! ev with
    | None => (CL_INVALID_EVENT, d)
    | Some o =>
        if negb (ev_user o) then (CL_INVALID_EVENT, d)
        else if negb ((st =? CL_COMPLETE) || (st <? 0)) then (CL_INVALID_VALUE, d)
        else if negb (ev_status o =? CL_SUBMITTED) then (CL_INVALID_OPERATION, d)
        else (CL_SUCCESS,
              with_events (<[ev := EventObj (ev_ctx o) st true (ev_refs o)]> (events d)) d)
    end).

Definition ref_clReleaseEvent (ev : Z) : device -> Z * device :=
  scripted (fun c => c) (fun d =>
    match events d !! ev with
    | None => (CL_INVALID_EVENT, d)
    | Some o =>
        if ev_refs o <=? 1 then (CL_SUCCESS, with_events (delete ev (events d)) d)
        else (CL_SUCCESS,
              with_events (<[ev := EventObj (ev_ctx o) (ev_status o) (ev_user o)
                                            (ev_refs o - 1)]> (events d)) d)
    end).

Definition ref_clEnqueueMarker (queue evp : Z) : device -> (Z * option Z) * device :=
  scripted (fun c => (c, None)) (fun d =>
    match queues d !! queue with
    | None => ((CL_INVALID_COMMAND_QUEUE, None), d)
    | Some ctx =>
        if evp =? NULL then ((CL_INVALID_VALUE, None), d)
        else
          let e := new_event d in
          ((CL_SUCCESS, Some e),
           with_events (<[e := EventObj ctx CL_QUEUED false 1]> (events d)) d)
    end).

Definition sizeof_cl_int : Z := 4.

Definition ref_clGetEventInfo (ev name size value : Z) (size_ret : bool)
    : device -> (Z * option Z * option Z) * device :=
  scripted (fun c => (c, None, None)) (fun d =>
    match events d !! ev with
    | None => ((CL_INVALID_EVENT, None, None), d)
    | Some o =>
        if negb (name =? CL_EVENT_COMMAND_EXECUTION_STATUS)
        then ((CL_INVALID_VALUE, None, None), d)
        else if negb (value =? NULL) && (size <? sizeof_cl_int)
        then ((CL_INVALID_VALUE, None, None), d)
        else ((CL_SUCCESS,
               if value =? NULL then None else Some (ev_status o),
               if size_ret then Some sizeof_cl_int else None), d)
    end).

Definition event_in_ctx (d : device) (ctx ev : Z) : bool :=
  match events d !! ev with
  | Some o => ev_ctx o =? ctx
  | None => false
  end.

Definition event_valid (d : device) (ev : Z) : bool :=
  bool_decide (is_Some (events d !! ev)).

Definition ref_clEnqueueWaitForEvents (queue : Z) (evs : list Z)
    : device -> Z * device :=
  scripted (fun c => c) (fun d =>
    match queues d !! queue with
    | None => (CL_INVALID_COMMAND_QUEUE, d)
    | Some ctx =>
        if negb (forallb (event_valid d) evs) then (CL_INVALID_EVENT, d)
        else if negb (forallb (event_in_ctx d ctx) evs) then (CL_INVALID_CONTEXT, d)
        else (CL_SUCCESS, d)
    end).

Definition complete (ev : Z) (m : gmap Z cl_event_obj) : gmap Z cl_event_obj :=
  match m !! ev with
  | Some o =>
      if 0 <? ev_status o
      then <[ev := EventObj (ev_ctx o) CL_COMPLETE (ev_user o) (ev_refs o)]> m
      else m
  | None => m
  end.

Definition ref_clWaitForEvents (evs : list Z) : device -> Z * device :=
  scripted (fun c => c) (fun d =>
    match evs with
    | [] => (CL_INVALID_VALUE, d)
    | e0 :: _ =>
        if negb (forallb (event_valid d) evs) then (CL_INVALID_EVENT, d)
        else
          match events d !! e0 with
          | Some o0 =>
              if negb (forallb (event_in_ctx d (ev_ctx o0)) evs)
              then (CL_INVALID_CONTEXT, d)
              else (CL_SUCCESS, with_events (foldr complete (events d) evs) d)
          | None => (CL_INVALID_EVENT, d)
          end
    end).

Definition api : cl_api device :=
  ClApi ref_clCreateUserEvent ref_clSetUserEventStatus ref_clReleaseEvent
        ref_clEnqueueMarker ref_clGetEventInfo ref_clEnqueueWaitForEvents
        ref_clWaitForEvents.

(** What the device reports as the execution status of the event stored in
    the handle [event]. *)
Definition device_status (event : Z) (s : state device) : option Z :=
  match load event (mem s) with
  | Some ev => ev_status <$> events (dev s) !! ev
  | None => None
  end.

(** A small machine to run on: the caller's handle variable at 16, its [int] at 24, two
    stream objects (at 32 with queue 7 of context 1, at 40 with queue 9 of
    context 2); [room] bytes of allocatable memory; [sc] the failure script.
    The device in use is the one of context 1. *)
Definition bench (room : Z) (sc : list Z) : state device :=
  State
    (Heap (<[16 := Block 8 None false]>
          (<[24 := Block 4 None false]>
          (<[32 := Block 8 (Some 7) false]>
          (<[40 := Block 8 (Some 9) false]> ∅)))) room)
    CL_SUCCESS 1
    (Device {[1; 2]} (<[7 := 1]> (<[9 := 2]> ∅)) ∅ sc).

(** The bench after a successful [acc_event_create] on the handle variable:
    the handle is the block at 41 and holds event 1 of context 1. *)
Definition after_create : state device :=
  match acc_event_create api 16 (bench 64 []) with
  | Some (_, s) => s
  | None => bench 64 []
  end.

(** The same with a failure script [sc] for the device calls that follow the
    two calls of the creation. *)
Definition after_create_then (sc : list Z) : state device :=
  match acc_event_create api 16 (bench 64 (CL_SUCCESS :: CL_SUCCESS :: sc)) with
  | Some (_, s) => s
  | None => bench 64 []
  end.

(** The result of a run without its final state. *)
Definition status {A} (r : option (A * state device)) : option A := fst <$> r.

Definition m_device_status (event : Z) : M device (option Z) :=
  fun s => Some (device_status event s, s).

(** A caller that creates an event into its handle variable and queries it
    at once: the status of the creation, what the device then reports for the
    event, the status of the query and the answer stored in the caller's
    [int]. *)
Definition create_then_query : M device (Z * option Z * Z * Z) :=
  let* r := acc_event_create api 16 in
  let* h := m_load 16 in
  let* st := m_device_status h in
  let* q := acc_event_query api h 24 in
  let* occurred := m_load 24 in
  ret (r, st, q, occurred).

(** A caller that creates an event on the device of context 1 and makes the
    stream at 40, whose queue lives in context 2, wait for it. *)
Definition create_then_wait_elsewhere : M device (Z * Z) :=
  let* r := acc_event_create api 16 in
  let* h := m_load 16 in
  let* q := acc_stream_wait_event api 40 h in
  ret (r, q).

(** A caller that ignores a failed creation and destroys the handle it was
    given. *)
Definition create_then_destroy : M device (Z * Z) :=
  let* r := acc_event_create api 16 in
  let* h := m_load 16 in
  let* q := acc_event_destroy api h in
  ret (r, q).

End RefCL.

End AccOpenCL.

(** ** The offload-region macros: libxstream_macros.h *)
Module Libxstream.
Import UB UB.Notations.

Definition LIBXSTREAM_ERROR_NONE : Z := 0.
Definition LIBXSTREAM_ERROR_RUNTIME : Z := -1.
Definition LIBXSTREAM_ERROR_CONDITION : Z := -2.

Definition LIBXSTREAM_MIN (a b : Z) : Z := if a <? b then a else b.
Definition LIBXSTREAM_MAX (a b : Z) : Z := if a <? b then b else a.

(** The checking macros expand to a conditional [return]; [Some c] means the
    enclosing function returns [c] here, [None] that control falls through.
    [checked] says whether LIBXSTREAM_CHECK is defined (without it the macros
    are at most assertions). *)
Definition LIBXSTREAM_CHECK_ERROR (checked : bool) (return_value : Z) : option Z :=
  if checked
  then if negb (LIBXSTREAM_ERROR_NONE =? return_value) then Some return_value else None
  else None.

Definition LIBXSTREAM_CHECK_CONDITION (checked : bool) (condition : bool) : option Z :=
  if checked
  then if negb condition then Some LIBXSTREAM_ERROR_CONDITION else None
  else None.

(** *** Selection of the dispatch strategy

    The three sets of LIBXSTREAM_OFFLOAD_* macros are chosen by [#if] tests
    on [(2*LIBXSTREAM_ASYNC+1)/2].  The preprocessor evaluates such an
    expression in [intmax_t], or in [uintmax_t] as soon as an operand is
    unsigned; both are 64 bits wide.  A decimal constant is signed when it
    fits [intmax_t] and unsigned when it only fits [uintmax_t]; a result out
    of range is reduced modulo 2^64 (with a diagnostic when it was signed),
    signed division truncates.

    [macro] is how LIBXSTREAM_ASYNC is defined: not at all, with an empty
    replacement, or as a decimal constant. *)
Inductive macro := NotDefined | DefinedEmpty | DefinedAs (v : Z).

Inductive strategy := Synchronous | Asynchronous | CompilerStreams.

(** A value of the preprocessor with its signedness. *)
Record pp_number := PP {
  pp_unsigned : bool;
  pp_value : Z
}.

(** Reduction into the range of [uintmax_t] ([u] true) or [intmax_t]. *)
Definition pp_fit (u : bool) (z : Z) : Z :=
  if u then z mod 2 ^ 64 else (z + 2 ^ 63) mod 2 ^ 64 - 2 ^ 63.

(** A binary operator after the usual arithmetic conversions.  The only
    divisor of the header is the constant 2, so division by zero does not
    arise. *)
Definition pp_binary (signed_op unsigned_op : Z -> Z -> Z) (a b : pp_number)
    : pp_number :=
  let u := pp_unsigned a || pp_unsigned b in
  let x := pp_fit u (pp_value a) in
  let y := pp_fit u (pp_value b) in
  PP u (pp_fit u ((if u then unsigned_op else signed_op) x y)).

Definition pp_mul : pp_number -> pp_number -> pp_number := pp_binary Z.mul Z.mul.
Definition pp_add : pp_number -> pp_number -> pp_number := pp_binary Z.add Z.add.
Definition pp_div : pp_number -> pp_number -> pp_number := pp_binary Z.quot Z.div.

Definition pp_neg (a : pp_number) : pp_number :=
  PP (pp_unsigned a) (pp_fit (pp_unsigned a) (- pp_value a)).

Definition pp_eq (a b : pp_number) : bool :=
  let u := pp_unsigned a || pp_unsigned b in
  pp_fit u (pp_value a) =? pp_fit u (pp_value b).

(** A decimal constant [n >= 0] without suffix.  One that does not fit
    [uintmax_t] is diagnosed ("integer constant is too large for its type");
    GCC's preprocessor then goes on with its low 64 bits as a signed value. *)
Definition pp_constant (n : Z) : pp_number :=
  if n <? 2 ^ 63 then PP false n
  else if n <? 2 ^ 64 then PP true n
  else PP false (pp_fit false n).

(** What [DefinedAs v] puts in the place of LIBXSTREAM_ASYNC: the decimal
    constant [v], or a minus sign and the constant [-v] when [v] is
    negative. *)
Definition pp_replacement (v : Z) : pp_number :=
  if 0 <=? v then pp_constant v else pp_neg (pp_constant (- v)).

(** [(2*x+1)/2] *)
Definition pp_level (x : pp_number) : pp_number :=
  pp_div (pp_add (pp_mul (PP false 2) x) (PP false 1)) (PP false 2).

(** The value of [(2*LIBXSTREAM_ASYNC+1)/2] in the preprocessor.  A name that
    is not a macro counts as 0 there; with an empty definition the expression
    reads [(2*+1)/2]. *)
Definition async_level (a : macro) : pp_number :=
  match a with
  | NotDefined => pp_level (PP false 0)
  | DefinedEmpty => pp_div (pp_mul (PP false 2) (PP false 1)) (PP false 2)
  | DefinedAs v => pp_level (pp_replacement v)
  end.

Definition is_defined (a : macro) : bool :=
  match a with NotDefined => false | _ => true end.

(** Which set of LIBXSTREAM_OFFLOAD_* macros the conditional block defines;
    [None] when it defines none of them (a level other than 0, 1, 2):
    [#if defined(LIBXSTREAM_OFFLOAD) && defined(LIBXSTREAM_ASYNC)
        && (0 != (2*LIBXSTREAM_ASYNC+1)/2)], then [# if (1 == ..)],
    [# elif (2 == ..)], and the [#else] branch of the outer test. *)
Definition select_strategy (offload : bool) (async : macro) : option strategy :=
  let lv := async_level async in
  if offload && is_defined async && negb (pp_eq (PP false 0) lv) then
    if pp_eq (PP false 1) lv then Some Asynchronous
    else if pp_eq (PP false 2) lv then Some CompilerStreams
    else None
  else Some Synchronous.

(** *** Streams *)
Record libxstream_stream := Stream {
  device : Z;
  signal : Z;
  pending : Z;
  handle : Z
}.

(** Modelled from the spec: the class [libxstream_stream] is declared in
    libxstream_stream.hpp, which is not part of the sources at hand; the
    macros use its members [device()], [signal()], [pending()],
    [pending(signal)] and [handle()].  The specification describes them as
    pure bookkeeping: [next_signal] "returns the next unused signal value and
    advances the counter by one" (the counter starts at 0 and 0 is the idle
    mark of [pending], so the first value handed out is 1), [mark_pending]
    "records that operations up to signal are outstanding", and [is_ready] is
    "true iff pending == 0".  The typedef [libxstream_signal] is not at hand
    either; a signal is "an integer sequence number" and is taken as an
    unbounded integer. *)
Definition stream_device (s : libxstream_stream) : Z := device s.

Definition next_signal (s : libxstream_stream) : Z * libxstream_stream :=
  (signal s + 1, Stream (device s) (signal s + 1) (pending s) (handle s)).

Definition stream_pending (s : libxstream_stream) : Z := pending s.

Definition mark_pending (v : Z) (s : libxstream_stream) : libxstream_stream :=
  Stream (device s) (signal s) v (handle s).

Definition stream_handle (s : libxstream_stream) : Z := handle s.


(** One executed [#pragma offload]: its target device and its [stream],
    [signal] and [wait] clauses. *)
Record offload := Offload {
  o_device : Z;
  o_stream : option Z;
  o_signal : option Z;
  o_wait : option Z
}.

(** The stream objects by address, and the offloads issued so far (latest
    first). *)
Record world := World {
  streams : gmap Z libxstream_stream;
  issued : list offload
}.

Definition W (A : Type) : Type := M world A.

Definition deref (p : Z) : W libxstream_stream :=
  fun w => match streams w !! p with
           | Some s => Some (s, w)
           | None => None
           end.
Definition assign (p : Z) (s : libxstream_stream) : W unit :=
  fun w => Some (tt, World (<[p := s]> (streams w)) (issued w)).
Definition issue (o : offload) : W unit :=
  fun w => Some (tt, World (streams w) (o :: issued w)).

(* the member calls through a [libxstream_stream*] *)
Definition call_device (p : Z) : W Z :=
  let* s := deref p in ret (stream_device s).
Definition call_signal (p : Z) : W Z :=
  let* s := deref p in
  let (v, s') := next_signal s in
  assign p s' ;; ret v.
Definition call_pending (p : Z) : W Z :=
  let* s := deref p in ret (stream_pending s).
Definition call_set_pending (p v : Z) : W unit :=
  let* s := deref p in assign p (mark_pending v s).
Definition call_handle (p : Z) : W Z :=
  let* s := deref p in ret (stream_handle s).

(** *** Offload regions *)

(** The locals that LIBXSTREAM_OFFLOAD_DECL declares; [handle_] exists only
    with compiler streams. *)
Record locals := Locals {
  device_ : Z;
  signal_ : Z;
  signal_consumed_ : Z;
  pending_ : Z;
  handle_ : option Z
}.

(** The body between LIBXSTREAM_OFFLOAD_BEGIN and LIBXSTREAM_OFFLOAD_END is
    user code; it is represented by what the header lets it do with the
    region's locals. *)
Inductive stmt :=
  | skip
  | seq (a b : stmt)
  | offload_target            (* #pragma offload LIBXSTREAM_OFFLOAD_TARGET        *)
  | offload_target_signal     (* #pragma offload LIBXSTREAM_OFFLOAD_TARGET_SIGNAL *)
  | offload_target_wait       (* #pragma offload LIBXSTREAM_OFFLOAD_TARGET_WAIT   *)
  | device_update (d : Z)     (* LIBXSTREAM_OFFLOAD_DEVICE_UPDATE(d)              *)
  | if_ready (a b : stmt).    (* if (LIBXSTREAM_OFFLOAD_READY) a else b           *)

(** The region object: the stream pointer it captured (0 for none), the
    value of [val<int,0>()], a member of the base class that is not part of
    the sources at hand and is therefore a field here, and the body. *)
Record offload_region := Region {
  stream_ : Z;
  val_int_0 : Z;
  body : stmt
}.

Definition LIBXSTREAM_OFFLOAD_DECL (st : strategy) (r : offload_region) : W locals :=
  let p := stream_ r in
  match st with
  | Asynchronous =>
      let* device_ := if negb (p =? 0) then call_device p else ret (val_int_0 r) in
      let* signal_ := if negb (p =? 0) then call_signal p else ret 0 in
      let signal_consumed_ := signal_ in
      let* pending_ := if negb (p =? 0) then call_pending p else ret 0 in
      ret (Locals device_ signal_ signal_consumed_ pending_ None)
  | CompilerStreams =>
      let* device_ := if negb (p =? 0) then call_device p else ret (val_int_0 r) in
      let* signal_ := if negb (p =? 0) then call_signal p else ret 0 in
      let signal_consumed_ := signal_ in
      let* pending_ := if negb (p =? 0) then call_pending p else ret 0 in
      let* handle_ := if negb (p =? 0) then call_handle p else ret 0 in
      ret (Locals device_ signal_ signal_consumed_ pending_ (Some handle_))
  | Synchronous =>
      let* device_ := if negb (p =? 0) then call_device p else ret (val_int_0 r) in
      let signal_ := 0 in
      let signal_consumed_ := 0 in
      let pending_ := 0 in
      ret (Locals device_ signal_ signal_consumed_ pending_ None)
  end.

(* the clause macros, applied to the current locals *)
Definition LIBXSTREAM_OFFLOAD_TARGET (st : strategy) (l : locals) : offload :=
  match st with
  | CompilerStreams => Offload (device_ l) (handle_ l) None None
  | _ => Offload (device_ l) None None None
  end.

Definition LIBXSTREAM_OFFLOAD_TARGET_SIGNAL (st : strategy) (l : locals)
    : offload * locals :=
  let t := LIBXSTREAM_OFFLOAD_TARGET st l in
  match st with
  | Synchronous => (t, l)
  | _ =>   (* signal(signal_++) *)
      (Offload (o_device t) (o_stream t) (Some (signal_ l)) None,
       Locals (device_ l) (signal_ l + 1) (signal_consumed_ l) (pending_ l) (handle_ l))
  end.

Definition LIBXSTREAM_OFFLOAD_TARGET_WAIT (st : strategy) (l : locals)
    : offload * locals :=
  let '(t, l') := LIBXSTREAM_OFFLOAD_TARGET_SIGNAL st l in
  match st with
  | Asynchronous =>   (* ... wait(pending_) *)
      (Offload (o_device t) (o_stream t) (o_signal t) (Some (pending_ l)), l')
  | _ => (t, l')
  end.

Definition LIBXSTREAM_OFFLOAD_PENDING (l : locals) : Z := pending_ l.
Definition LIBXSTREAM_OFFLOAD_READY (l : locals) : bool :=
  0 =? LIBXSTREAM_OFFLOAD_PENDING l.
Definition LIBXSTREAM_OFFLOAD_DEVICE (l : locals) : Z := device_ l.
Definition LIBXSTREAM_OFFLOAD_DEVICE_UPDATE (d : Z) (l : locals) : locals :=
  Locals d (signal_ l) (signal_consumed_ l) (pending_ l) (handle_ l).

Fixpoint exec (st : strategy) (c : stmt) (l : locals) : W locals :=
  match c with
  | skip => ret l
  | seq a b => let* l1 := exec st a l in exec st b l1
  | offload_target => issue (LIBXSTREAM_OFFLOAD_TARGET st l) ;; ret l
  | offload_target_signal =>
      let '(o, l') := LIBXSTREAM_OFFLOAD_TARGET_SIGNAL st l in issue o ;; ret l'
  | offload_target_wait =>
      let '(o, l') := LIBXSTREAM_OFFLOAD_TARGET_WAIT st l in issue o ;; ret l'
  | device_update d => ret (LIBXSTREAM_OFFLOAD_DEVICE_UPDATE d l)
  | if_ready a b => if LIBXSTREAM_OFFLOAD_READY l then exec st a l else exec st b l
  end.

(** The end of [operator()], from LIBXSTREAM_OFFLOAD_END. *)
Definition LIBXSTREAM_OFFLOAD_END (r : offload_region) (l : locals) : W unit :=
  if negb (stream_ r =? 0) && negb (signal_ l =? signal_consumed_ l)
  then call_set_pending (stream_ r) (signal_consumed_ l)
  else ret tt.

(** [void offload_region::operator()() const] *)
Definition run_region (st : strategy) (r : offload_region) : W locals :=
  let* l := LIBXSTREAM_OFFLOAD_DECL st r in
  let* l' := exec st (body r) l in
  LIBXSTREAM_OFFLOAD_END r l' ;;
  ret l'.



(** *** Histories of a stream store *)

(** The number of offloads in a list that carry a [signal] clause. *)
Fixpoint consumed (os : list offload) : nat :=
  match os with
  | [] => 0%nat
  | o :: rest =>
      match o_signal o with
      | Some _ => S (consumed rest)
      | None => consumed rest
      end
  end.







(** The [signal] clauses of a list of offloads, in list order. *)
Fixpoint signal_tags (os : list offload) : list Z :=
  match os with
  | [] => []
  | o :: rest =>
      match o_signal o with
      | Some t => t :: signal_tags rest
      | None => signal_tags rest
      end
  end.

(** The locals right after the declarations of a region whose stream pointer
    is null or points to the stream [s]. *)
Definition entry_locals (st : strategy) (r : offload_region)
    (s : option libxstream_stream) : locals :=
  match s with
  | None =>
      Locals (val_int_0 r) 0 0 0
             (match st with CompilerStreams => Some 0 | _ => None end)
  | Some s =>
      match st with
      | Synchronous => Locals (device s) 0 0 0 None
      | Asynchronous =>
          Locals (device s) (signal s + 1) (signal s + 1) (pending s) None
      | CompilerStreams =>
          Locals (device s) (signal s + 1) (signal s + 1) (pending s)
                 (Some (handle s))
      end
  end.

(** Whether a body uses LIBXSTREAM_OFFLOAD_DEVICE_UPDATE. *)
Fixpoint updates_device (c : stmt) : bool :=
  match c with
  | device_update _ => true
  | seq a b | if_ready a b => updates_device a || updates_device b
  | _ => false
  end.

(** What the clause macros allow on an offload issued under strategy [st] by
    a region whose [handle_] is [h] and whose [pending_] is [pd]. *)
Definition clause_ok (st : strategy) (h : option Z) (pd : Z) (o : offload) : Prop :=
  match st with
  | Synchronous => o_stream o = None /\ o_signal o = None /\ o_wait o = None
  | Asynchronous =>
      o_stream o = None /\
      (o_wait o = None \/ (o_wait o = Some pd /\ o_signal o <> None))
  | CompilerStreams => o_stream o = h /\ o_wait o = None
  end.


(** A store whose stream at address 8 has handed out five signals, the third
    of which is still pending. *)
Definition busy_world : world := World {[ 8 := Stream 1 5 3 0 ]} [].

End Libxstream.

(** * Properties of the offload-region macros *)
Module LibxstreamFacts.
Import UB UB.Notations Libxstream.

Ltac ub := unfold bind, ret, undefined in *; simpl in *.

Lemma consumed_app (a b : list offload) :
  consumed (a ++ b) = (consumed a + consumed b)%nat.
Proof.
  induction a as [|o a IH]; simpl; [reflexivity|].
  destruct (o_signal o); simpl; rewrite IH; reflexivity.
Qed.

Lemma bind_eq {S A B} (m : M S A) (k : A -> M S B) s a s' :
  m s = Some (a, s') -> bind m k s = k a s'.
Proof. intros E. unfold bind. rewrite E. reflexivity. Qed.

Section Members.
Context (w : world) (p : Z) (s : libxstream_stream).
Hypothesis Hs : streams w !! p = Some s.

Lemma call_device_eq : call_device p w = Some (device s, w).
Proof. unfold call_device, deref, bind, ret. rewrite Hs. reflexivity. Qed.

Lemma call_pending_eq : call_pending p w = Some (pending s, w).
Proof. unfold call_pending, deref, bind, ret. rewrite Hs. reflexivity. Qed.

Lemma call_handle_eq : call_handle p w = Some (handle s, w).
Proof. unfold call_handle, deref, bind, ret. rewrite Hs. reflexivity. Qed.

Lemma call_signal_eq :
  call_signal p w
  = Some (signal s + 1,
          World (<[p := snd (next_signal s)]> (streams w)) (issued w)).
Proof. unfold call_signal, deref, bind, ret. rewrite Hs. reflexivity. Qed.

Lemma call_set_pending_eq v :
  call_set_pending p v w
  = Some (tt, World (<[p := mark_pending v s]> (streams w)) (issued w)).
Proof. unfold call_set_pending, deref, bind, assign. rewrite Hs. reflexivity. Qed.

End Members.

(** The body never fails, leaves the stream store alone, keeps the snapshot
    and the pending value read at entry, and advances [signal_] once per
    offload that carries a [signal] clause. *)
Lemma exec_spec (st : strategy) (c : stmt) :
  forall (l : locals) (w : world),
  exists l' new,
    exec st c l w = Some (l', World (streams w) (new ++ issued w)) /\
    signal_consumed_ l' = signal_consumed_ l /\
    pending_ l' = pending_ l /\
    handle_ l' = handle_ l /\
    signal_ l' = signal_ l + Z.of_nat (consumed new).
Proof.
  induction c as [|a IHa b IHb| | | |d|a IHa b IHb]; intros l w.
  - exists l, []. destruct w; simpl. repeat split; try reflexivity. lia.
  - destruct (IHa l w) as (l1 & n1 & E1 & C1 & P1 & H1 & S1).
    destruct (IHb l1 (World (streams w) (n1 ++ issued w)))
      as (l2 & n2 & E2 & C2 & P2 & H2 & S2).
    exists l2, (n2 ++ n1). simpl. unfold bind at 1. rewrite E1, E2. simpl.
    rewrite <- app_assoc. repeat split; try congruence.
    rewrite consumed_app. lia.
  - exists l, [LIBXSTREAM_OFFLOAD_TARGET st l]. simpl.
    repeat split; try reflexivity.
    destruct st; simpl; lia.
  - destruct st; simpl.
    + exists l, [Offload (device_ l) None None None]. simpl.
      repeat split; try reflexivity. lia.
    + eexists _, [_]. simpl. repeat split; try reflexivity.
    + eexists _, [_]. simpl. repeat split; try reflexivity.
  - destruct st; simpl.
    + exists l, [Offload (device_ l) None None None]. simpl.
      repeat split; try reflexivity. lia.
    + eexists _, [_]. simpl. repeat split; try reflexivity.
    + eexists _, [_]. simpl. repeat split; try reflexivity.
  - exists (LIBXSTREAM_OFFLOAD_DEVICE_UPDATE d l), []. destruct w; simpl.
    repeat split; try reflexivity. lia.
  - simpl. destruct (LIBXSTREAM_OFFLOAD_READY l); [apply IHa | apply IHb].
Qed.

(** With the synchronous macros no offload carries a [signal] clause. *)
Lemma exec_sync_no_signal (c : stmt) :
  forall (l : locals) (w : world) l' w',
    exec Synchronous c l w = Some (l', w') -> signal_ l' = signal_ l.
Proof.
  induction c as [|a IHa b IHb| | | |d|a IHa b IHb]; intros l w l' w' E;
    simpl in E; ub.
  - congruence.
  - destruct (exec Synchronous a l w) as [[l1 w1]|] eqn:E1; [|discriminate].
    rewrite (IHb _ _ _ _ E). eapply IHa; eassumption.
  - congruence.
  - congruence.
  - congruence.
  - inversion E; reflexivity.
  - destruct (LIBXSTREAM_OFFLOAD_READY l); [eapply IHa | eapply IHb]; eassumption.
Qed.

(** C6.  Asynchronous signal/wait strategy, region bound to a stream: running
    the region always succeeds; [signal_consumed_] is the snapshot of the
    signal drawn at entry; the local counter [signal_] differs from the
    snapshot exactly when the body issued an offload with a [signal] clause;
    and at the end the stream's pending marker is set (to the snapshot) if
    and only if that is the case -- otherwise the stream is as the
    declarations left it, its pending field unchanged. *)
Theorem region_marks_pending_iff_signal_consumed
    (r : offload_region) (w : world) (s : libxstream_stream) :
  stream_ r <> 0 ->
  streams w !! stream_ r = Some s ->
  exists l new,
    let s1 := snd (next_signal s) in
    let s' := if Nat.eqb (consumed new) 0 then s1
              else mark_pending (signal_consumed_ l) s1 in
    run_region Asynchronous r w
      = Some (l, World (<[stream_ r := s']> (streams w)) (new ++ issued w)) /\
    signal_consumed_ l = fst (next_signal s) /\
    (signal_ l <> signal_consumed_ l <-> (0 < consumed new)%nat) /\
    ((0 < consumed new)%nat -> pending s' = signal_consumed_ l) /\
    (consumed new = 0%nat -> pending s' = pending s).
Proof.
  intros Hp Hs.
  assert (Hnz : negb (stream_ r =? 0) = true)
    by (apply negb_true_iff, Z.eqb_neq; exact Hp).
  set (s1 := snd (next_signal s)).
  set (w1 := World (<[stream_ r := s1]> (streams w)) (issued w)).
  set (l0 := Locals (device s) (signal s + 1) (signal s + 1) (pending s) None).
  assert (Hs1 : streams w1 !! stream_ r = Some s1) by apply lookup_insert_eq.
  assert (Hdecl : LIBXSTREAM_OFFLOAD_DECL Asynchronous r w = Some (l0, w1)).
  { unfold LIBXSTREAM_OFFLOAD_DECL. rewrite Hnz.
    rewrite (bind_eq _ _ _ _ _ (call_device_eq w _ s Hs)).
    rewrite (bind_eq _ _ _ _ _ (call_signal_eq w _ s Hs)).
    rewrite (bind_eq _ _ _ _ _ (call_pending_eq _ _ s1 Hs1)).
    reflexivity. }
  destruct (exec_spec Asynchronous (body r) l0 w1)
    as (l & new & E & C & P & H & S).
  exists l, new. simpl in C, S.
  assert (Hne : signal_ l <> signal_consumed_ l <-> (0 < consumed new)%nat)
    by (rewrite C, S; lia).
  unfold run_region. unfold bind at 1. rewrite Hdecl.
  unfold bind at 1. rewrite E.
  split; [|split; [|split; [|split]]].
  - unfold LIBXSTREAM_OFFLOAD_END. rewrite Hnz. simpl.
    destruct (Nat.eqb_spec (consumed new) 0) as [Hz|Hz].
    + assert (Heq : signal_ l = signal_consumed_ l) by (rewrite C, S; lia).
      rewrite Heq, Z.eqb_refl. simpl. ub. reflexivity.
    + assert (Hd : (signal_ l =? signal_consumed_ l) = false)
        by (apply Z.eqb_neq; rewrite C, S; lia).
      rewrite Hd. simpl.
      rewrite (bind_eq _ _ _ _ _
                 (call_set_pending_eq (World (streams w1) (new ++ issued w1))
                                      _ s1 Hs1 (signal_consumed_ l))).
      unfold ret. simpl. rewrite insert_insert_eq. reflexivity.
  - simpl. exact C.
  - exact Hne.
  - intros Hpos. destruct (Nat.eqb_spec (consumed new) 0); [lia|]. reflexivity.
  - intros Hz. rewrite Hz. reflexivity.
Qed.

Lemma region_marks_pending_iff_signal_consumed_witness :
  let r := Region 8 0 (if_ready offload_target_signal offload_target_wait) in
  exists l new,
    let s' := if Nat.eqb (consumed new) 0 then Stream 1 6 3 0
              else mark_pending (signal_consumed_ l) (Stream 1 6 3 0) in
    run_region Asynchronous r busy_world
      = Some (l, World (<[8 := s']> (streams busy_world)) (new ++ [])) /\
    signal_consumed_ l = 6 /\
    (signal_ l <> signal_consumed_ l <-> (0 < consumed new)%nat) /\
    ((0 < consumed new)%nat -> pending s' = signal_consumed_ l) /\
    (consumed new = 0%nat -> pending s' = 3).
Proof.
  apply (region_marks_pending_iff_signal_consumed
           (Region 8 0 (if_ready offload_target_signal offload_target_wait))
           busy_world (Stream 1 5 3 0)).
  - simpl. lia.
  - reflexivity.
Defined.

(** The three status codes of the header are pairwise distinct, and the
    condition code is what LIBXSTREAM_CHECK_CONDITION returns, when checking is
    compiled in, for a condition that does not hold. *)
Lemma check_condition_code (checked condition : bool) :
  LIBXSTREAM_CHECK_CONDITION checked condition
    = (if checked && negb condition then Some LIBXSTREAM_ERROR_CONDITION else None) /\
  LIBXSTREAM_ERROR_CONDITION <> LIBXSTREAM_ERROR_RUNTIME /\
  LIBXSTREAM_ERROR_CONDITION <> LIBXSTREAM_ERROR_NONE /\
  LIBXSTREAM_ERROR_RUNTIME <> LIBXSTREAM_ERROR_NONE.
Proof.
  split; [destruct checked, condition; reflexivity|].
  unfold LIBXSTREAM_ERROR_CONDITION, LIBXSTREAM_ERROR_RUNTIME, LIBXSTREAM_ERROR_NONE.
  lia.
Qed.

(** The preprocessor selection: an empty or unit LIBXSTREAM_ASYNC selects the
    asynchronous macros, 2 the compiler streams, 0 or no offload support the
    synchronous ones. *)
Example select_strategy_cases :
  select_strategy true DefinedEmpty = Some Asynchronous /\
  select_strategy true (DefinedAs 1) = Some Asynchronous /\
  select_strategy true (DefinedAs 2) = Some CompilerStreams /\
  select_strategy true (DefinedAs 0) = Some Synchronous /\
  select_strategy true NotDefined = Some Synchronous /\
  select_strategy false (DefinedAs 1) = Some Synchronous /\
  select_strategy true (DefinedAs 3) = None.
Proof. repeat split. Qed.

(** C7 as stated fails: the synchronous declarations take [device_] from the
    stream; for a stream bound to device 1 it is 1, not 0. *)
Lemma sync_decl_device_from_stream :
  LIBXSTREAM_OFFLOAD_DECL Synchronous (Region 8 0 skip) busy_world
    = Some (Locals 1 0 0 0 None, busy_world) /\
  device_ (Locals 1 0 0 0 None) <> 0.
Proof. split; [vm_compute; reflexivity | simpl; lia]. Qed.

(** C7, amended.  Synchronous strategy, with or without a stream: the
    declarations succeed, leave the stream store untouched and bind
    [signal_], [signal_consumed_] and [pending_] to 0 whatever the state of
    the stream; [device_] is the stream's device when a stream is given and
    [val<int,0>()] when none is. *)
Theorem sync_decl_signal_pending_zero (r : offload_region) (w : world) :
  stream_ r = 0 \/ is_Some (streams w !! stream_ r) ->
  exists d,
    LIBXSTREAM_OFFLOAD_DECL Synchronous r w = Some (Locals d 0 0 0 None, w) /\
    (stream_ r = 0 -> d = val_int_0 r) /\
    (forall s, stream_ r <> 0 -> streams w !! stream_ r = Some s -> d = device s).
Proof.
  intros [Hz|[s Hs]].
  - exists (val_int_0 r). unfold LIBXSTREAM_OFFLOAD_DECL.
    rewrite Hz. simpl. split; [reflexivity|]. split; [reflexivity|].
    intros s0 Hn. congruence.
  - destruct (Z.eqb_spec (stream_ r) 0) as [Hz|Hn].
    + exists (val_int_0 r). unfold LIBXSTREAM_OFFLOAD_DECL.
      rewrite Hz. simpl. split; [reflexivity|]. split; [reflexivity|].
      intros s0 Hn. congruence.
    + exists (device s). unfold LIBXSTREAM_OFFLOAD_DECL.
      replace (negb (stream_ r =? 0)) with true
        by (symmetry; apply negb_true_iff, Z.eqb_neq; exact Hn).
      rewrite (bind_eq _ _ _ _ _ (call_device_eq w _ s Hs)).
      split; [reflexivity|]. split; [congruence|].
      intros s0 _ Hs0. congruence.
Qed.

Lemma sync_decl_signal_pending_zero_witness :
  exists d,
    LIBXSTREAM_OFFLOAD_DECL Synchronous (Region 8 7 offload_target) busy_world
      = Some (Locals d 0 0 0 None, busy_world) /\
    (8 = 0 -> d = 7) /\
    (forall s, 8 <> 0 -> streams busy_world !! 8 = Some s -> d = device s).
Proof.
  apply (sync_decl_signal_pending_zero (Region 8 7 offload_target) busy_world).
  right. exists (Stream 1 5 3 0). reflexivity.
Defined.

(** *** Histories *)

Lemma negb_eqb_true (p : Z) : p <> 0 -> negb (p =? 0) = true.
Proof. intros H. apply negb_true_iff, Z.eqb_neq. exact H. Qed.













End LibxstreamFacts.

(** * Properties of the host memory *)
Module MemFacts.
Import Mem.

Lemma malloc_cases (n : Z) (h : heap) :
  (avail h < n /\ malloc n h = (NULL, h)) \/
  (n <= avail h /\
   exists p, p <> NULL /\ cells h !! p = None /\
     malloc n h = (p, Heap (<[p := Block n None true]> (cells h)) (avail h - n))).
Proof.
  unfold malloc. destruct (Z.leb_spec n (avail h)) as [Hle|Hgt].
  - right. split; [exact Hle|].
    set (p := fresh ({[NULL]} ∪ dom (cells h))).
    pose proof (is_fresh ({[NULL]} ∪ dom (cells h))) as Hf. fold p in Hf.
    exists p. split; [|split; [|reflexivity]].
    + intros ->. apply Hf. apply elem_of_union_l, elem_of_singleton. reflexivity.
    + apply not_elem_of_dom. intros Hin. apply Hf, elem_of_union_r, Hin.
  - left. split; [exact Hgt | reflexivity].
Qed.

Lemma malloc_null_iff (n : Z) (h : heap) :
  fst (malloc n h) = NULL <-> avail h < n.
Proof.
  destruct (malloc_cases n h) as [[Hlt E]|[Hle (p & Hp & _ & E)]]; rewrite E; simpl.
  - tauto.
  - split; [contradiction | lia].
Qed.


Lemma store_live (p v : Z) (h h' : heap) :
  store p v h = Some h' -> live h p.
Proof.
  unfold store, live. destruct (Z.eqb_spec p NULL); [discriminate|].
  destruct (cells h !! p); [eauto | discriminate].
Qed.

Lemma load_live (p v : Z) (h : heap) :
  load p h = Some v -> live h p.
Proof.
  unfold load, live. destruct (Z.eqb_spec p NULL); [discriminate|].
  destruct (cells h !! p); [eauto | discriminate].
Qed.

Lemma load_store (p v q : Z) (h h' : heap) :
  store p v h = Some h' ->
  load q h' = if decide (p = q) then Some v else load q h.
Proof.
  unfold store, load. destruct (Z.eqb_spec p NULL) as [|Hp]; [discriminate|].
  destruct (cells h !! p) as [b|] eqn:Hb; [|discriminate].
  intros E; inversion E; subst; clear E. simpl.
  destruct (decide (p = q)) as [<-|Hne].
  - destruct (Z.eqb_spec p NULL); [contradiction|].
    rewrite lookup_insert_eq. reflexivity.
  - rewrite lookup_insert_ne by exact Hne. reflexivity.
Qed.

Lemma store_success (p v : Z) (h : heap) :
  live h p -> exists h', store p v h = Some h'.
Proof.
  intros [Hp [b Hb]]. unfold store.
  destruct (Z.eqb_spec p NULL); [contradiction|]. rewrite Hb. eauto.
Qed.

Lemma store_avail (p v : Z) (h h' : heap) :
  store p v h = Some h' -> avail h' = avail h.
Proof.
  unfold store. destruct (p =? NULL); [discriminate|].
  destruct (cells h !! p); [|discriminate].
  intros E; inversion E; reflexivity.
Qed.

Lemma store_lookup (p v q : Z) (h h' : heap) :
  store p v h = Some h' ->
  cells h' !! q =
    if decide (p = q)
    then (fun b => Block (blk_size b) (Some v) (blk_heap b)) <$> cells h !! q
    else cells h !! q.
Proof.
  unfold store. destruct (p =? NULL); [discriminate|].
  destruct (cells h !! p) as [b|] eqn:Hb; [|discriminate].
  intros E; inversion E; subst; clear E. simpl.
  destruct (decide (p = q)) as [<-|Hne].
  - rewrite lookup_insert_eq, Hb. reflexivity.
  - rewrite lookup_insert_ne by exact Hne. reflexivity.
Qed.

Lemma free_load (p q : Z) (h h' : heap) :
  free p h = Some h' -> p <> q -> load q h' = load q h.
Proof.
  unfold free, load. destruct (Z.eqb_spec p NULL).
  - intros E; inversion E; reflexivity.
  - destruct (cells h !! p) as [b|]; [|discriminate].
    destruct (blk_heap b); [|discriminate].
    intros E Hne; inversion E; subst; clear E. simpl.
    rewrite lookup_delete_ne by exact Hne. reflexivity.
Qed.

Lemma store_destroyable (p v e : Z) (h h' : heap) :
  store p v h = Some h' -> destroyable h e -> destroyable h' e.
Proof.
  intros Est [Hn (n & x & Hb)]. split; [exact Hn|].
  rewrite (store_lookup _ _ _ _ _ Est), Hb.
  destruct (decide (p = e)); simpl; eauto.
Qed.

Lemma malloc_destroyable (n e : Z) (h : heap) :
  destroyable h e -> destroyable (snd (malloc n h)) e.
Proof.
  intros [Hn (m & x & Hb)].
  destruct (malloc_cases n h) as [[_ E]|[_ (p & Hp & Hfresh & E)]]; rewrite E; simpl.
  - split; [exact Hn | eauto].
  - split; [exact Hn|]. exists m, x. simpl.
    rewrite lookup_insert_ne by congruence. exact Hb.
Qed.

Lemma destroyable_load (e : Z) (h : heap) :
  destroyable h e -> exists v, load e h = Some v.
Proof.
  intros [Hn (n & v & Hb)]. exists v. unfold load.
  destruct (Z.eqb_spec e NULL); [contradiction|]. rewrite Hb. reflexivity.
Qed.

Lemma destroyable_free (e : Z) (h : heap) :
  destroyable h e -> exists h', free e h = Some h'.
Proof.
  intros [Hn (n & v & Hb)]. unfold free.
  destruct (Z.eqb_spec e NULL); [contradiction|]. rewrite Hb. simpl. eauto.
Qed.

Lemma load_exact (p : Z) (h : heap) (b : block) :
  p <> NULL -> cells h !! p = Some b -> load p h = blk_val b.
Proof.
  intros Hp Hb. unfold load.
  destruct (Z.eqb_spec p NULL); [contradiction|]. rewrite Hb. reflexivity.
Qed.

Lemma store_exact (p v : Z) (h : heap) (b : block) :
  p <> NULL -> cells h !! p = Some b ->
  store p v h
  = Some (Heap (<[p := Block (blk_size b) (Some v) (blk_heap b)]> (cells h)) (avail h)).
Proof.
  intros Hp Hb. unfold store.
  destruct (Z.eqb_spec p NULL); [contradiction|]. rewrite Hb. reflexivity.
Qed.

Lemma free_exact (p : Z) (h : heap) (b : block) :
  p <> NULL -> cells h !! p = Some b -> blk_heap b = true ->
  free p h = Some (Heap (delete p (cells h)) (avail h + blk_size b)).
Proof.
  intros Hp Hb Hh. unfold free.
  destruct (Z.eqb_spec p NULL); [contradiction|]. rewrite Hb, Hh. reflexivity.
Qed.

Lemma free_inv (p : Z) (h h' : heap) :
  free p h = Some h' ->
  (p = NULL /\ h' = h) \/
  (p <> NULL /\ exists b, cells h !! p = Some b /\ blk_heap b = true /\
     h' = Heap (delete p (cells h)) (avail h + blk_size b)).
Proof.
  unfold free. destruct (Z.eqb_spec p NULL) as [->|Hp].
  - intros E; inversion E; auto.
  - destruct (cells h !! p) as [b|] eqn:Hb; [|discriminate].
    destruct (blk_heap b) eqn:Hh; [|discriminate].
    intros E; inversion E; subst. right. split; [exact Hp|]. eauto.
Qed.

End MemFacts.

(** * Properties of the OpenCL event operations *)
Module AccOpenCLFacts.
Import Mem UB UB.Notations AccOpenCL.

Section AnyDevice.
Context {D : Type} (api : cl_api D).

(** Inversion of one monadic step. *)
Lemma bind_inv {S A B} (m : UB.M S A) (k : A -> UB.M S B) s b s' :
  bind m k s = Some (b, s') ->
  exists a s1, m s = Some (a, s1) /\ k a s1 = Some (b, s').
Proof.
  unfold bind. destruct (m s) as [[a s1]|]; [|discriminate]. eauto.
Qed.

Lemma m_load_inv p (s : state D) v s' :
  m_load p s = Some (v, s') -> s' = s /\ load p (mem s) = Some v.
Proof.
  unfold m_load. destruct (load p (mem s)); [|discriminate].
  intros E; inversion E; auto.
Qed.

Lemma m_store_inv p v (s : state D) u s' :
  m_store p v s = Some (u, s') ->
  exists h, store p v (mem s) = Some h /\
            s' = State h (cl_error s) (my_device_ctx s) (dev s).
Proof.
  unfold m_store. destruct (store p v (mem s)); [|discriminate].
  intros E; inversion E; eauto.
Qed.

Lemma m_free_inv p (s : state D) u s' :
  m_free p s = Some (u, s') ->
  exists h, free p (mem s) = Some h /\
            s' = State h (cl_error s) (my_device_ctx s) (dev s).
Proof.
  unfold m_free. destruct (free p (mem s)); [|discriminate].
  intros E; inversion E; eauto.
Qed.

Lemma m_malloc_inv n (s : state D) p s' :
  m_malloc n s = Some (p, s') ->
  p = fst (malloc n (mem s)) /\
  s' = State (snd (malloc n (mem s))) (cl_error s) (my_device_ctx s) (dev s).
Proof.
  unfold m_malloc. destruct (malloc n (mem s)) as [q h].
  intros E; inversion E; auto.
Qed.

Lemma call_inv {A} (f : D -> A * D) (s : state D) a s' :
  call f s = Some (a, s') ->
  exists d, f (dev s) = (a, d) /\
            s' = State (mem s) (cl_error s) (my_device_ctx s) d.
Proof.
  unfold call. destruct (f (dev s)) as [x d].
  intros E; inversion E; eauto.
Qed.

Lemma set_cl_error_inv e (s : state D) u s' :
  set_cl_error e s = Some (u, s') ->
  s' = State (mem s) e (my_device_ctx s) (dev s).
Proof. unfold set_cl_error. intros E; inversion E; auto. Qed.

Lemma get_cl_error_inv (s : state D) e s' :
  get_cl_error s = Some (e, s') -> s' = s /\ e = cl_error s.
Proof. unfold get_cl_error. intros E; inversion E; auto. Qed.

Lemma get_ctx_inv (s : state D) c s' :
  get_ctx s = Some (c, s') -> s' = s /\ c = my_device_ctx s.
Proof. unfold get_ctx. intros E; inversion E; auto. Qed.

Lemma ret_inv {A} (a : A) (s : state D) b s' :
  ret a s = Some (b, s') -> b = a /\ s' = s.
Proof. unfold ret. intros E; inversion E; auto. Qed.

Lemma error_check_true e line :
  acc_opencl_error_check e line = true <-> e <> CL_SUCCESS.
Proof.
  unfold acc_opencl_error_check. rewrite negb_true_iff. apply Z.eqb_neq.
Qed.

Lemma error_check_false e line :
  acc_opencl_error_check e line = false <-> e = CL_SUCCESS.
Proof.
  unfold acc_opencl_error_check. rewrite negb_false_iff. apply Z.eqb_eq.
Qed.

End AnyDevice.

(** Peel the next statement off a run that is known to have returned. *)
Ltac peel H :=
  let a := fresh "a" in
  let s := fresh "s" in
  let E := fresh "E" in
  apply bind_inv in H as (a & s & E & H).

Ltac inv_prim E :=
  first
    [ apply m_load_inv in E as [? E]
    | apply m_store_inv in E as (? & E & ?)
    | apply m_free_inv in E as (? & E & ?)
    | apply m_malloc_inv in E as [? ?]
    | apply call_inv in E as (? & E & ?)
    | apply set_cl_error_inv in E
    | apply get_cl_error_inv in E as [? ?]
    | apply get_ctx_inv in E as [? ?]
    | apply ret_inv in E as [? ?] ].

Ltac exec1 H :=
  let a := fresh "a" in
  let s := fresh "s" in
  let E := fresh "E" in
  apply bind_inv in H as (a & s & E & H); inv_prim E; subst; simpl in H.

Section Outcomes.
Context {D : Type} (api : cl_api D).

(** [acc_event_destroy]: on failure nothing is freed. *)
Lemma destroy_outcome event (s : state D) r s' :
  acc_event_destroy api event s = Some (r, s') ->
  (r = 0 /\ cl_error s' = CL_SUCCESS) \/
  (r = -1 /\ cl_error s' <> CL_SUCCESS /\ mem s' = mem s).
Proof.
  unfold acc_event_destroy. intros H.
  do 4 exec1 H.
  destruct (acc_opencl_error_check _ 71) eqn:C.
  - inv_prim H. subst. right. simpl.
    split; [reflexivity|]. split; [|reflexivity]. apply (error_check_true _ 71), C.
  - exec1 H. inv_prim H. subst. left. simpl.
    split; [reflexivity|]. apply (error_check_false _ 71), C.
Qed.

(** [acc_event_synchronize] and [acc_stream_wait_event] never touch host
    memory. *)
Lemma synchronize_outcome event (s : state D) r s' :
  acc_event_synchronize api event s = Some (r, s') ->
  mem s' = mem s /\
  ((r = 0 /\ cl_error s' = CL_SUCCESS) \/ (r = -1 /\ cl_error s' <> CL_SUCCESS)).
Proof.
  unfold acc_event_synchronize. intros H.
  do 4 exec1 H.
  destruct (acc_opencl_error_check _ 206) eqn:C; inv_prim H; subst; simpl.
  - split; [reflexivity|]. right. split; [reflexivity|].
    apply (error_check_true _ 206), C.
  - split; [reflexivity|]. left. split; [reflexivity|].
    apply (error_check_false _ 206), C.
Qed.

Lemma wait_event_outcome stream event (s : state D) r s' :
  acc_stream_wait_event api stream event s = Some (r, s') ->
  mem s' = mem s /\
  ((r = 0 /\ cl_error s' = CL_SUCCESS) \/ (r = -1 /\ cl_error s' <> CL_SUCCESS)).
Proof.
  unfold acc_stream_wait_event. intros H.
  do 5 exec1 H.
  destruct (acc_opencl_error_check _ 179) eqn:C; inv_prim H; subst; simpl.
  - split; [reflexivity|]. right. split; [reflexivity|].
    apply (error_check_true _ 179), C.
  - split; [reflexivity|]. left. split; [reflexivity|].
    apply (error_check_false _ 179), C.
Qed.


(** [acc_event_create]: whenever it returns at all, the allocation succeeded,
    the caller's variable holds the new block and the block holds what
    [clCreateUserEvent] returned. *)
Lemma create_outcome event_p (s : state D) r s' :
  live (mem s) event_p ->
  acc_event_create api event_p s = Some (r, s') ->
  exists p ev,
    p <> NULL /\ cells (mem s) !! p = None /\
    fst (malloc sizeof_cl_event (mem s)) = p /\
    load event_p (mem s') = Some p /\
    cells (mem s') !! p = Some (Block sizeof_cl_event (Some ev) true) /\
    (r = 0 \/ (r = -1 /\ cl_error s' <> CL_SUCCESS)).
Proof.
  intros [Hnn [b0 Hb0]] H. unfold acc_event_create in H.
  apply bind_inv in H as (p & s1 & Em & H).
  apply m_malloc_inv in Em as [Hp Hs1].
  apply bind_inv in H as (u1 & s2 & Est & H).
  apply m_store_inv in Est as (h2 & Est & Hs2). rewrite Hs1 in Est. simpl in Est.
  apply bind_inv in H as (clevent & s3 & Eld & H).
  apply m_load_inv in Eld as [Hs3 Eld]. rewrite Hs2 in Eld. simpl in Eld.
  rewrite (MemFacts.load_store _ _ _ _ _ Est) in Eld.
  destruct (decide (event_p = event_p)) as [_|Hc]; [|contradiction].
  inversion Eld; subst clevent; clear Eld.
  apply bind_inv in H as (ctx & s4 & Ectx & H). apply get_ctx_inv in Ectx as [Hs4 _].
  apply bind_inv in H as ([ev err] & s5 & Ec & H).
  apply call_inv in Ec as (d5 & Ec & Hs5).
  apply bind_inv in H as (u2 & s6 & Ee & H). apply set_cl_error_inv in Ee.
  apply bind_inv in H as (u3 & s7 & Est2 & H).
  apply m_store_inv in Est2 as (h3 & Est2 & Hs7).
  subst s7 s6 s5 s4 s3 s2 s1. simpl in *.
  pose proof (MemFacts.store_live _ _ _ _ Est2) as [Hpn _].
  destruct (MemFacts.malloc_cases sizeof_cl_event (mem s))
    as [[_ Em]|[_ (q & Hqn & Hfresh & Em)]];
    rewrite Em in *; simpl in *; subst p; [contradiction|].
  assert (Hne : event_p <> q) by (intros ->; congruence).
  assert (Hld : load event_p h3 = Some q).
  { rewrite (MemFacts.load_store _ _ _ _ _ Est2).
    destruct (decide (q = event_p)); [congruence|].
    rewrite (MemFacts.load_store _ _ _ _ _ Est).
    destruct (decide (event_p = event_p)); [reflexivity | contradiction]. }
  assert (Hblk : cells h3 !! q = Some (Block sizeof_cl_event (Some ev) true)).
  { rewrite (MemFacts.store_lookup _ _ _ _ _ Est2).
    destruct (decide (q = q)); [|contradiction].
    rewrite (MemFacts.store_lookup _ _ _ _ _ Est).
    destruct (decide (event_p = q)); [contradiction|]. simpl.
    rewrite lookup_insert_eq. reflexivity. }
  exists q, ev. split; [exact Hqn|]. split; [exact Hfresh|]. split; [reflexivity|].
  exec1 H.
  destruct (acc_opencl_error_check err 38) eqn:C.
  - inv_prim H. subst. simpl. split; [exact Hld|]. split; [exact Hblk|].
    right. split; [reflexivity|]. apply (error_check_true _ 38), C.
  - do 3 exec1 H. inv_prim H. subst. simpl.
    split; [exact Hld|]. split; [exact Hblk|]. left; reflexivity.
Qed.

(** [acc_event_query]: a successful query stores 1 exactly when the scratch
    buffer it asked [malloc] for is the null pointer; the status that the
    device writes into the buffer takes no part in the answer. *)
Lemma query_outcome event has_occured (s : state D) r s' :
  live (mem s) has_occured ->
  acc_event_query api event has_occured s = Some (r, s') ->
  (r = -1 /\ cl_error s' <> CL_SUCCESS) \/
  (r = 0 /\ cl_error s' = CL_SUCCESS /\
   exists ev n,
     load event (mem s) = Some ev /\
     snd (fst (clGetEventInfo api ev CL_EVENT_COMMAND_EXECUTION_STATUS 0 NULL true
                 (dev s))) = Some n /\
     load has_occured (mem s') =
       Some (if fst (malloc ((n * sizeof_char) mod SIZE_T_MODULUS) (mem s)) =? NULL
             then 1 else 0)).
Proof.
  intros [Hnn [b0 Hb0]] H. unfold acc_event_query in H.
  apply bind_inv in H as (ev & s1 & Eld & H).
  apply m_load_inv in Eld as [Hs1 Eld]. subst s1.
  apply bind_inv in H as ([[r1 d1] size_ret] & s2 & Ec & H).
  apply call_inv in Ec as (dv2 & Ec & Hs2).
  apply bind_inv in H as (u1 & s3 & Ee & H). apply set_cl_error_inv in Ee.
  apply bind_inv in H as (e1 & s4 & Eg & H). apply get_cl_error_inv in Eg as [Hs4 He1].
  subst s4 s3 s2. simpl in *. subst e1.
  destruct (acc_opencl_error_check r1 135) eqn:C1.
  { apply ret_inv in H as [-> ->]. left. simpl.
    split; [reflexivity|]. apply (error_check_true _ 135), C1. }
  apply bind_inv in H as (n & s5 & El & H).
  destruct size_ret as [n0|]; [|discriminate].
  apply ret_inv in El as [-> ->].
  apply bind_inv in H as (pv & s6 & Em & H).
  apply m_malloc_inv in Em as [Hpv Hs6]. simpl in Hpv, Hs6.
  apply bind_inv in H as (ev2 & s7 & Eld2 & H).
  apply m_load_inv in Eld2 as [Hs7 _].
  apply bind_inv in H as ([[r2 data] sz2] & s8 & Ec2 & H).
  apply call_inv in Ec2 as (dv8 & _ & Hs8).
  apply bind_inv in H as (u2 & s9 & Ew & H).
  apply bind_inv in H as (u3 & s10 & Ee2 & H). apply set_cl_error_inv in Ee2.
  apply bind_inv in H as (e2 & s11 & Eg2 & H).
  apply get_cl_error_inv in Eg2 as [Hs11 He2].
  subst s11 s10. simpl in *. subst e2.
  destruct (acc_opencl_error_check r2 140) eqn:C2.
  { apply ret_inv in H as [-> ->]. left. simpl.
    split; [reflexivity|]. apply (error_check_true _ 140), C2. }
  right.
  apply bind_inv in H as (u4 & s12 & Est & H).
  apply bind_inv in H as (u5 & s13 & Ef & H).
  apply m_free_inv in Ef as (h13 & Ef & Hs13).
  apply ret_inv in H as [-> ->]. subst s13. simpl.
  split; [reflexivity|].
  assert (Herr : cl_error s12 = r2 /\
                 load has_occured (mem s12) = Some (if pv =? NULL then 1 else 0)).
  { change (pv =? CL_COMPLETE) with (pv =? NULL) in Est.
    destruct (pv =? NULL);
      apply m_store_inv in Est as (h12 & Est & ->); simpl;
      (split; [reflexivity|]);
      rewrite (MemFacts.load_store _ _ _ _ _ Est);
      (destruct (decide (has_occured = has_occured)); [reflexivity | contradiction]). }
  destruct Herr as [Hr2 Hans].
  split; [rewrite Hr2; apply (error_check_false _ 140); exact C2|].
  exists ev, n0. split; [exact Eld|]. split; [rewrite Ec; reflexivity|].
  rewrite <- Hpv.
  rewrite (MemFacts.free_load _ _ _ _ Ef); [exact Hans|].
  intros <-.
  destruct (MemFacts.malloc_cases ((n0 * sizeof_char) mod SIZE_T_MODULUS) (mem s))
    as [[_ Em]|[_ (q & Hqn & Hfresh & Em)]]; rewrite Em in Hpv; simpl in Hpv.
  - congruence.
  - subst q. congruence.
Qed.



(** [acc_event_create] run forward: with a live handle variable and room for
    the block, once [clCreateUserEvent] has succeeded the result is 0
    whatever [clSetUserEventStatus] answers; the answer only lands in
    [cl_error]. *)
Lemma create_ignores_set_status event_p (s : state D) ev d1 :
  live (mem s) event_p ->
  sizeof_cl_event <= avail (mem s) ->
  clCreateUserEvent api (my_device_ctx s) (dev s) = ((ev, CL_SUCCESS), d1) ->
  exists s',
    acc_event_create api event_p s = Some (0, s') /\
    cl_error s' = fst (clSetUserEventStatus api ev CL_COMPLETE d1).
Proof.
  intros Hlive Hroom Hc.
  destruct (MemFacts.malloc_cases sizeof_cl_event (mem s))
    as [[Hlt _]|[_ (p & Hpn & Hfresh & Em)]]; [lia|].
  set (h1 := Heap (<[p := Block sizeof_cl_event None true]> (cells (mem s)))
                  (avail (mem s) - sizeof_cl_event)) in Em.
  assert (Hne : event_p <> p).
  { intros ->. destruct Hlive as [_ [b Hb]]. congruence. }
  assert (Hl1 : live h1 event_p).
  { destruct Hlive as [Hn [b Hb]]. split; [exact Hn|]. exists b.
    simpl. rewrite lookup_insert_ne by congruence. exact Hb. }
  destruct (MemFacts.store_success event_p p h1 Hl1) as (h2 & Est).
  assert (Hl2 : live h2 p).
  { split; [exact Hpn|]. rewrite (MemFacts.store_lookup _ _ _ _ _ Est).
    destruct (decide (event_p = p)); [contradiction|].
    simpl. rewrite lookup_insert_eq. eauto. }
  destruct (MemFacts.store_success p ev h2 Hl2) as (h3 & Est2).
  assert (Hld : load event_p h2 = Some p).
  { rewrite (MemFacts.load_store _ _ _ _ _ Est).
    destruct (decide (event_p = event_p)); [reflexivity | contradiction]. }
  assert (Hld3 : load p h3 = Some ev).
  { rewrite (MemFacts.load_store _ _ _ _ _ Est2).
    destruct (decide (p = p)); [reflexivity | contradiction]. }
  destruct (clSetUserEventStatus api ev CL_COMPLETE d1) as [r2 d2] eqn:Es.
  exists (State h3 r2 (my_device_ctx s) d2).
  split; [|reflexivity].
  unfold acc_event_create, bind, m_malloc, m_store, m_load, get_ctx, call,
    set_cl_error, get_cl_error, ret.
  rewrite Em. simpl. rewrite Est. simpl. rewrite Hld. simpl.
  rewrite Hc. simpl. rewrite Est2. simpl. rewrite Hld3. simpl.
  rewrite Es. reflexivity.
Qed.

(** [acc_event_destroy] stays within defined behaviour on a destroyable
    handle, whatever the device answers. *)
Lemma destroy_defined event (s : state D) :
  destroyable (mem s) event ->
  exists r s', acc_event_destroy api event s = Some (r, s').
Proof.
  intros Hd.
  destruct (MemFacts.destroyable_load _ _ Hd) as (ev & Hld).
  destruct (MemFacts.destroyable_free _ _ Hd) as (h' & Hfr).
  unfold acc_event_destroy, bind, m_load, call, set_cl_error, get_cl_error,
    m_free, ret.
  rewrite Hld. destruct (clReleaseEvent api ev (dev s)) as [c d1]. simpl.
  destruct (acc_opencl_error_check c 71); [eauto|].
  simpl. rewrite Hfr. eauto.
Qed.

(** A failed operation on a handle leaves the handle destroyable. *)
Lemma failure_keeps_destroyable (o : event_op) (event : Z) (s s' : state D) :
  match o with
  | Create _ => False
  | Destroy e | Record_ e _ | Query e _ | WaitEvent _ e | Synchronize e => e = event
  end ->
  destroyable (mem s) event ->
  run_op api o s = Some (-1, s') ->
  destroyable (mem s') event.
Proof.
  intros Ho Hd H. destruct o; simpl in Ho, H; try contradiction; subst.
  - apply destroy_outcome in H as [[H _]|[_ [_ Hm]]]; [lia|]. rewrite Hm. exact Hd.
  - unfold acc_event_record in H.
    exec1 H.
    apply bind_inv in H as ([c w] & s1 & Ec & H). inv_prim Ec. subst. simpl in H.
    apply bind_inv in H as (u & s2 & Ew & H).
    assert (Hd2 : destroyable (mem s2) event).
    { destruct w as [ev|].
      - inv_prim Ew. subst. simpl in *. eapply MemFacts.store_destroyable; eassumption.
      - inv_prim Ew. subst. exact Hd. }
    do 2 exec1 H.
    destruct (acc_opencl_error_check c 100); inv_prim H; subst; exact Hd2.
  - unfold acc_event_query in H.
    exec1 H.
    apply bind_inv in H as ([[r1 d1] size_ret] & s2 & Ec & H).
    inv_prim Ec. subst. simpl in H.
    do 2 exec1 H.
    destruct (acc_opencl_error_check r1 135).
    { inv_prim H. subst. exact Hd. }
    apply bind_inv in H as (n & s5 & El & H).
    destruct size_ret as [n0|]; [|discriminate].
    apply ret_inv in El as [-> ->].
    apply bind_inv in H as (pv & s6 & Em & H).
    apply m_malloc_inv in Em as [Hpv Hs6]. simpl in Hpv, Hs6.
    assert (Hd6 : destroyable (mem s6) event)
      by (subst s6; simpl; apply MemFacts.malloc_destroyable, Hd).
    apply bind_inv in H as (ev2 & s7 & Eld2 & H).
    apply m_load_inv in Eld2 as [-> _].
    apply bind_inv in H as ([[r2 data] sz2] & s8 & Ec2 & H).
    apply call_inv in Ec2 as (dv8 & _ & Hs8).
    assert (Hd8 : destroyable (mem s8) event) by (subst s8; exact Hd6).
    apply bind_inv in H as (u2 & s9 & Ew & H).
    assert (Hd9 : destroyable (mem s9) event).
    { destruct data as [v|]; [destruct (pv =? NULL)|].
      - inv_prim Ew. subst s9. exact Hd8.
      - apply m_store_inv in Ew as (h9 & Ew & ->). simpl.
        eapply MemFacts.store_destroyable; eassumption.
      - inv_prim Ew. subst s9. exact Hd8. }
    do 2 exec1 H.
    destruct (acc_opencl_error_check r2 140).
    { inv_prim H. subst. exact Hd9. }
    apply bind_inv in H as (u4 & s12 & Est & H).
    exec1 H. inv_prim H. lia.
  - apply wait_event_outcome in H as [Hm _]. rewrite Hm. exact Hd.
  - apply synchronize_outcome in H as [Hm _]. rewrite Hm. exact Hd.
Qed.

End Outcomes.

Section Verdicts.
Context {D : Type} (api : cl_api D).








End Verdicts.

Section Claims.
Context {D : Type} (api : cl_api D).

(** C3, amended.  [acc_stream_wait_event] on a readable stream object and
    event handle always returns, and its status is 0 or -1 and nothing else:
    -1 exactly when [clEnqueueWaitForEvents] reports an error (whatever the
    error is, a wait the device cannot serve across contexts included), 0
    otherwise.  The device's code is left in [cl_error]; host memory is not
    touched. *)
Theorem wait_event_reports_backend_error (stream event : Z) (s : state D)
    (queue ev : Z) :
  load stream (mem s) = Some queue ->
  load event (mem s) = Some ev ->
  let c := fst (clEnqueueWaitForEvents api queue [ev] (dev s)) in
  exists r s',
    acc_stream_wait_event api stream event s = Some (r, s') /\
    cl_error s' = c /\ mem s' = mem s /\
    (r = 0 \/ r = -1) /\
    (r = -1 <-> c <> CL_SUCCESS) /\
    r <> Libxstream.LIBXSTREAM_ERROR_CONDITION.
Proof.
  intros Hq He c. unfold acc_stream_wait_event.
  unfold bind, m_load, call, set_cl_error, get_cl_error, ret. simpl.
  rewrite Hq, He.
  destruct (clEnqueueWaitForEvents api queue [ev] (dev s)) as [c0 d0] eqn:Ec.
  subst c. simpl.
  destruct (acc_opencl_error_check c0 179) eqn:C.
  - apply (error_check_true _ 179) in C.
    eexists _, _. split; [reflexivity|]. simpl.
    unfold Libxstream.LIBXSTREAM_ERROR_CONDITION. repeat split; auto; lia.
  - apply (error_check_false _ 179) in C.
    eexists _, _. split; [reflexivity|]. simpl.
    unfold Libxstream.LIBXSTREAM_ERROR_CONDITION. repeat split; auto; try lia.
Qed.


(** C10.  [acc_event_create] stores the pointer it got from [malloc] in the
    caller's handle variable before it looks at any error code.  So whatever
    status it returns -- in particular when it returns -1, which it does only
    after the device rejected the creation -- the variable has been
    overwritten: it holds a non-null pointer to a block that [malloc] handed
    out during the call and that is still allocated. *)
Theorem create_failure_leaves_fresh_handle (event_p : Z) (s s' : state D) (r : Z) :
  live (mem s) event_p ->
  acc_event_create api event_p s = Some (r, s') ->
  (r = -1 -> cl_error s' <> CL_SUCCESS) /\
  exists p,
    load event_p (mem s') = Some p /\
    p <> NULL /\
    ~ live (mem s) p /\
    live (mem s') p /\
    blk_heap <$> cells (mem s') !! p = Some true.
Proof.
  intros Hlive H.
  destruct (create_outcome api event_p s r s' Hlive H)
    as (p & ev & Hpn & Hfresh & _ & Hld & Hblk & Hr).
  split.
  - intros ->. destruct Hr as [Hr|[_ Hr]]; [lia | exact Hr].
  - exists p. split; [exact Hld|]. split; [exact Hpn|]. split; [|split].
    + intros [_ [b Hb]]. congruence.
    + split; [exact Hpn|]. rewrite Hblk. eauto.
    + rewrite Hblk. reflexivity.
Qed.

End Claims.

Import RefCL.

Lemma bench_live_handle room sc : live (mem (bench room sc)) 16.
Proof. split; [unfold NULL; lia|]. exists (Block 8 None false). reflexivity. Qed.

Lemma wait_event_reports_backend_error_witness :
  let s := after_create in
  exists r s',
    acc_stream_wait_event RefCL.api 40 41 s = Some (r, s') /\
    cl_error s' = fst (clEnqueueWaitForEvents RefCL.api 9 [1] (dev s)) /\
    mem s' = mem s /\
    (r = 0 \/ r = -1) /\
    (r = -1 <-> fst (clEnqueueWaitForEvents RefCL.api 9 [1] (dev s)) <> CL_SUCCESS) /\
    r <> Libxstream.LIBXSTREAM_ERROR_CONDITION.
Proof.
  apply (wait_event_reports_backend_error RefCL.api 40 41 after_create 9 1);
    vm_compute; reflexivity.
Defined.


Lemma create_failure_leaves_fresh_handle_witness :
  exists s',
    acc_event_create RefCL.api 16 (bench 64 [CL_OUT_OF_RESOURCES]) = Some (-1, s') /\
    (-1 = -1 -> cl_error s' <> CL_SUCCESS) /\
    exists p,
      load 16 (mem s') = Some p /\
      p <> NULL /\
      ~ live (mem (bench 64 [CL_OUT_OF_RESOURCES])) p /\
      live (mem s') p /\
      blk_heap <$> cells (mem s') !! p = Some true.
Proof.
  eexists. split; [vm_compute; reflexivity|].
  apply (create_failure_leaves_fresh_handle RefCL.api 16
           (bench 64 [CL_OUT_OF_RESOURCES])).
  - apply bench_live_handle.
  - vm_compute. reflexivity.
Defined.

(** C3 as stated fails: an event created on the device of context 1 and a
    stream whose queue lives in context 2.  The device rejects the wait with
    [CL_INVALID_CONTEXT], and the status returned is -1, the code of every
    other backend failure. *)
Lemma cross_context_wait_returns_minus_one :
  exists s',
    create_then_wait_elsewhere (bench 64 []) = Some ((0, -1), s') /\
    cl_error s' = CL_INVALID_CONTEXT.
Proof. eexists. split; vm_compute; reflexivity. Qed.


(** C1 at its failing input.  An event is created (status 0) and queried at
    once, never recorded, with the allocator exhausted by the time of the
    query: the device reports the event as [CL_COMPLETE], the query succeeds
    (status 0) and stores 1. *)
Theorem fresh_event_reported_occurred :
  status (create_then_query (bench 8 [])) = Some (0, Some CL_COMPLETE, 0, 1).
Proof. vm_compute. reflexivity. Qed.

(** C2 at its failing input.  The same caller with memory to spare: the
    device reports the event as [CL_COMPLETE], the query succeeds (status 0)
    and stores 0. *)
Theorem complete_event_reported_not_occurred :
  status (create_then_query (bench 64 [])) = Some (0, Some CL_COMPLETE, 0, 0).
Proof. vm_compute. reflexivity. Qed.

(** C4 at its failing input.  The device creates the event and then rejects
    [clSetUserEventStatus] with [CL_OUT_OF_RESOURCES]: [acc_event_create]
    returns 0 all the same, with the rejection left in [cl_error]. *)
Theorem create_absorbs_set_status_failure :
  exists s',
    acc_event_create RefCL.api 16 (bench 64 [CL_SUCCESS; CL_OUT_OF_RESOURCES])
      = Some (0, s') /\
    cl_error s' = CL_OUT_OF_RESOURCES.
Proof. eexists. split; vm_compute; reflexivity. Qed.

(** C9 at its failing input.  The same rejected call seen from the caller:
    the creation reports 0 although a device call inside it failed and the
    event was left [CL_SUBMITTED]; the handle can still be destroyed. *)
Theorem failed_device_call_reported_as_success :
  status (create_then_query (bench 64 [CL_SUCCESS; CL_OUT_OF_RESOURCES]))
    = Some (0, Some CL_SUBMITTED, 0, 0) /\
  status (create_then_destroy (bench 64 [CL_SUCCESS; CL_OUT_OF_RESOURCES]))
    = Some (0, 0).
Proof. split; vm_compute; reflexivity. Qed.

End AccOpenCLFacts.

(** * Further properties of the OpenCL event operations *)
Module AccOpenCLMore.
Import Mem UB UB.Notations AccOpenCL AccOpenCLFacts.

Section AnyDevice.
Context {D : Type} (api : cl_api D).

(** X1.  [acc_event_destroy] on a handle that points to an initialised
    [malloc] block releases the device event stored in it and always returns.
    If the device rejects the release the status is -1 and host memory is
    exactly as before: nothing is freed.  If the device accepts, the status
    is 0, the handle block and only it is gone, and its bytes are back with
    the allocator. *)
Theorem destroy_frees_exactly_the_handle (event : Z) (s : state D) (n v : Z) :
  event <> NULL ->
  cells (mem s) !! event = Some (Block n (Some v) true) ->
  let c := fst (clReleaseEvent api v (dev s)) in
  exists r s',
    acc_event_destroy api event s = Some (r, s') /\
    cl_error s' = c /\
    dev s' = snd (clReleaseEvent api v (dev s)) /\
    (c <> CL_SUCCESS -> r = -1 /\ mem s' = mem s) /\
    (c = CL_SUCCESS ->
       r = 0 /\ cells (mem s') !! event = None /\
       avail (mem s') = avail (mem s) + n /\
       forall q, q <> event -> cells (mem s') !! q = cells (mem s) !! q).
Proof.
  intros Hn Hb c.
  unfold acc_event_destroy, bind, m_load, call, set_cl_error, get_cl_error,
    m_free, ret.
  rewrite (MemFacts.load_exact _ _ _ Hn Hb). simpl.
  destruct (clReleaseEvent api v (dev s)) as [c0 d0] eqn:Ec. subst c. simpl.
  destruct (acc_opencl_error_check c0 71) eqn:C.
  - apply (error_check_true _ 71) in C.
    eexists _, _. split; [reflexivity|]. simpl.
    repeat split; auto. all: intros; contradiction.
  - apply (error_check_false _ 71) in C.
    cbn [mem]. rewrite (MemFacts.free_exact _ _ _ Hn Hb eq_refl). simpl.
    eexists _, _. split; [reflexivity|]. simpl.
    split; [reflexivity|]. split; [reflexivity|]. split; [intros; contradiction|].
    intros _. split; [reflexivity|]. split; [apply lookup_delete_eq|].
    split; [reflexivity|]. intros q Hq. apply lookup_delete_ne. congruence.
Qed.

Ltac norm := cbv beta iota; cbn [dev mem cl_error my_device_ctx fst snd].

(** Inversion of a successful destroy: the handle was a [malloc] block, and
    the memory afterwards is the memory before without it. *)
Lemma destroy_success_inv (event : Z) (s s' : state D) :
  acc_event_destroy api event s = Some (0, s') ->
  event <> NULL /\
  exists b, cells (mem s) !! event = Some b /\ blk_heap b = true /\
    mem s' = Heap (delete event (cells (mem s))) (avail (mem s) + blk_size b).
Proof.
  unfold acc_event_destroy. intros H.
  apply bind_inv in H as (ev & s1 & Eld & H).
  apply m_load_inv in Eld as [-> Eld].
  pose proof (MemFacts.load_live _ _ _ Eld) as [Hn _].
  apply bind_inv in H as (c & s2 & Ec & H). apply call_inv in Ec as (d & _ & ->).
  apply bind_inv in H as (u & s3 & Ee & H). apply set_cl_error_inv in Ee. subst s3.
  apply bind_inv in H as (e & s4 & Eg & H). apply get_cl_error_inv in Eg as [-> ->].
  simpl in H.
  destruct (acc_opencl_error_check c 71).
  - apply ret_inv in H as [H _]. lia.
  - apply bind_inv in H as (u2 & s5 & Ef & H).
    apply m_free_inv in Ef as (h & Ef & ->). apply ret_inv in H as [_ ->].
    simpl in *. split; [exact Hn|].
    apply MemFacts.free_inv in Ef as [[Hz _]|[_ (b & Hb & Hh & ->)]];
      [contradiction|]. eauto.
Qed.

(** X2.  After a successful [acc_event_destroy] the handle is a dangling
    pointer: a second destroy, a query, a synchronize or a stream wait on it
    reads freed memory, which is undefined behaviour (no status is
    returned). *)
Theorem use_after_destroy_is_undefined (event : Z) (s s' : state D) :
  acc_event_destroy api event s = Some (0, s') ->
  acc_event_destroy api event s' = None /\
  (forall has_occured, acc_event_query api event has_occured s' = None) /\
  acc_event_synchronize api event s' = None /\
  (forall stream, acc_stream_wait_event api stream event s' = None).
Proof.
  intros H. apply destroy_success_inv in H as (Hn & b & _ & _ & Hm).
  assert (Hld : load event (mem s') = None).
  { unfold load. destruct (event =? NULL); [reflexivity|].
    rewrite Hm. simpl. rewrite lookup_delete_eq. reflexivity. }
  unfold acc_event_destroy, acc_event_query, acc_event_synchronize,
    acc_stream_wait_event, bind, m_load.
  rewrite Hld. repeat split; try reflexivity.
  intros stream. destruct (load stream (mem s')); [rewrite Hld|]; reflexivity.
Qed.

(** The exact effect of [acc_event_create] on host memory, whenever it
    returns: one new block for the event, the handle variable pointing to
    it, everything else as before. *)
Lemma create_frame (event_p : Z) (s : state D) (r : Z) (s' : state D) :
  live (mem s) event_p ->
  acc_event_create api event_p s = Some (r, s') ->
  exists p ev b0,
    p <> NULL /\ cells (mem s) !! p = None /\
    cells (mem s) !! event_p = Some b0 /\
    cells (mem s') !! p = Some (Block sizeof_cl_event (Some ev) true) /\
    cells (mem s') !! event_p = Some (Block (blk_size b0) (Some p) (blk_heap b0)) /\
    (forall q, q <> p -> q <> event_p -> cells (mem s') !! q = cells (mem s) !! q) /\
    avail (mem s') = avail (mem s) - sizeof_cl_event.
Proof.
  intros [Hnn [b0 Hb0]] H. unfold acc_event_create in H.
  apply bind_inv in H as (p & s1 & Em & H).
  apply m_malloc_inv in Em as [Hp Hs1].
  apply bind_inv in H as (u1 & s2 & Est & H).
  apply m_store_inv in Est as (h2 & Est & Hs2). rewrite Hs1 in Est. simpl in Est.
  apply bind_inv in H as (clevent & s3 & Eld & H).
  apply m_load_inv in Eld as [Hs3 Eld]. rewrite Hs2 in Eld. simpl in Eld.
  rewrite (MemFacts.load_store _ _ _ _ _ Est) in Eld.
  destruct (decide (event_p = event_p)) as [_|Hc]; [|contradiction].
  inversion Eld; subst clevent; clear Eld.
  apply bind_inv in H as (ctx & s4 & Ectx & H). apply get_ctx_inv in Ectx as [Hs4 _].
  apply bind_inv in H as ([ev err] & s5 & Ec & H).
  apply call_inv in Ec as (d5 & Ec & Hs5).
  apply bind_inv in H as (u2 & s6 & Ee & H). apply set_cl_error_inv in Ee.
  apply bind_inv in H as (u3 & s7 & Est2 & H).
  apply m_store_inv in Est2 as (h3 & Est2 & Hs7).
  subst s7 s6 s5 s4 s3 s2 s1. simpl in *.
  pose proof (MemFacts.store_live _ _ _ _ Est2) as [Hpn _].
  destruct (MemFacts.malloc_cases sizeof_cl_event (mem s))
    as [[_ Em]|[_ (q & Hqn & Hfresh & Em)]];
    rewrite Em in *; simpl in *; subst p; [contradiction|].
  assert (Hne : event_p <> q) by (intros ->; congruence).
  assert (Hmem : mem s' = h3).
  { apply bind_inv in H as (e & s8 & Eg & H). apply get_cl_error_inv in Eg as [-> _].
    destruct (acc_opencl_error_check e 38).
    - apply ret_inv in H as [_ ->]. reflexivity.
    - do 3 exec1 H. inv_prim H. subst. reflexivity. }
  rewrite Hmem.
  exists q, ev, b0. split; [exact Hqn|]. split; [exact Hfresh|]. split; [exact Hb0|].
  pose proof (MemFacts.store_avail _ _ _ _ Est) as Ha1.
  pose proof (MemFacts.store_avail _ _ _ _ Est2) as Ha2. simpl in Ha1.
  repeat split.
  - rewrite (MemFacts.store_lookup _ _ _ _ _ Est2).
    destruct (decide (q = q)); [|contradiction].
    rewrite (MemFacts.store_lookup _ _ _ _ _ Est).
    destruct (decide (event_p = q)); [contradiction|]. simpl.
    rewrite lookup_insert_eq. reflexivity.
  - rewrite (MemFacts.store_lookup _ _ _ _ _ Est2).
    destruct (decide (q = event_p)); [congruence|].
    rewrite (MemFacts.store_lookup _ _ _ _ _ Est).
    destruct (decide (event_p = event_p)); [|contradiction]. simpl.
    rewrite lookup_insert_ne by congruence. rewrite Hb0. reflexivity.
  - intros x Hx1 Hx2.
    rewrite (MemFacts.store_lookup _ _ _ _ _ Est2).
    destruct (decide (q = x)); [congruence|].
    rewrite (MemFacts.store_lookup _ _ _ _ _ Est).
    destruct (decide (event_p = x)); [congruence|]. simpl.
    rewrite lookup_insert_ne by congruence. reflexivity.
  - lia.
Qed.

(** X3.  Create followed by a successful destroy of the handle it produced
    is neutral for the allocator and for every block but the caller's handle
    variable: the bytes are back, the event block is gone, and the variable
    is left holding the address of the freed block. *)
Theorem create_destroy_round_trip (event_p : Z) (s s1 s2 : state D) (r p : Z) :
  live (mem s) event_p ->
  acc_event_create api event_p s = Some (r, s1) ->
  load event_p (mem s1) = Some p ->
  acc_event_destroy api p s1 = Some (0, s2) ->
  avail (mem s2) = avail (mem s) /\
  load event_p (mem s2) = Some p /\
  cells (mem s) !! p = None /\ cells (mem s2) !! p = None /\
  forall q, q <> event_p -> cells (mem s2) !! q = cells (mem s) !! q.
Proof.
  intros Hlive Hc Hld Hd.
  destruct (create_frame _ _ _ _ Hlive Hc)
    as (p' & ev & b0 & Hpn & Hfresh & Hb0 & Hbp & Hbe & Hfr & Hav).
  destruct Hlive as [Hen _].
  assert (p = p').
  { rewrite (MemFacts.load_exact _ _ _ Hen Hbe) in Hld. simpl in Hld. congruence. }
  subst p'.
  apply destroy_success_inv in Hd as (_ & b & Hb & _ & Hm).
  rewrite Hbp in Hb. inversion Hb; subst b; clear Hb. simpl in Hm.
  assert (Hpe : p <> event_p) by (intros ->; congruence).
  rewrite Hm. simpl. split; [lia|]. split; [|split; [exact Hfresh|split]].
  - unfold load. destruct (Z.eqb_spec event_p NULL); [contradiction|]. simpl.
    rewrite lookup_delete_ne by exact Hpe. rewrite Hbe. reflexivity.
  - apply lookup_delete_eq.
  - intros q Hq. destruct (decide (q = p)) as [->|Hqp].
    + rewrite lookup_delete_eq. congruence.
    + rewrite lookup_delete_ne by congruence. apply Hfr; assumption.
Qed.

(** X4.  [acc_event_create] does not check what [malloc] returns: when the
    allocator cannot serve the eight bytes of the event block, the function
    goes on to store the new device event through the null pointer, which is
    undefined behaviour (no status is returned). *)
Theorem create_without_memory_is_undefined (event_p : Z) (s : state D) :
  live (mem s) event_p ->
  avail (mem s) < sizeof_cl_event ->
  acc_event_create api event_p s = None.
Proof.
  intros [Hn [b Hb]] Hroom.
  destruct (MemFacts.malloc_cases sizeof_cl_event (mem s))
    as [[_ Em]|[Hle _]]; [|lia].
  unfold acc_event_create, bind, m_malloc, m_store, m_load, get_ctx, call,
    set_cl_error.
  rewrite Em. cbn [mem]. rewrite (MemFacts.store_exact _ _ _ _ Hn Hb). cbn [mem].
  erewrite MemFacts.load_exact; [|exact Hn|apply lookup_insert_eq]. cbn [blk_val dev].
  destruct (clCreateUserEvent api _ (dev s)) as [[ev err] d1]. reflexivity.
Qed.

(** X5.  With a live handle variable and room for the event block,
    [acc_event_create] always returns, and returns -1 exactly when
    [clCreateUserEvent] reports an error.  Either way the block stays
    allocated (eight bytes less are available), the handle variable points to
    it and it holds whatever [clCreateUserEvent] returned: a failed creation
    frees nothing. *)
Theorem create_returns_and_keeps_block (event_p : Z) (s : state D) :
  live (mem s) event_p ->
  sizeof_cl_event <= avail (mem s) ->
  let ev := fst (fst (clCreateUserEvent api (my_device_ctx s) (dev s))) in
  let err := snd (fst (clCreateUserEvent api (my_device_ctx s) (dev s))) in
  exists r s' p,
    acc_event_create api event_p s = Some (r, s') /\
    (r = 0 \/ r = -1) /\
    (r = -1 <-> err <> CL_SUCCESS) /\
    load event_p (mem s') = Some p /\
    load p (mem s') = Some ev /\
    avail (mem s') = avail (mem s) - sizeof_cl_event.
Proof.
  intros Hlive Hroom ev err.
  destruct (MemFacts.malloc_cases sizeof_cl_event (mem s))
    as [[Hlt _]|[_ (p & Hpn & Hfresh & Em)]]; [lia|].
  set (h1 := Heap (<[p := Block sizeof_cl_event None true]> (cells (mem s)))
                  (avail (mem s) - sizeof_cl_event)) in Em.
  assert (Hne : event_p <> p).
  { intros ->. destruct Hlive as [_ [b Hb]]. congruence. }
  assert (Hl1 : live h1 event_p).
  { destruct Hlive as [Hn [b Hb]]. split; [exact Hn|]. exists b.
    simpl. rewrite lookup_insert_ne by congruence. exact Hb. }
  destruct (MemFacts.store_success event_p p h1 Hl1) as (h2 & Est).
  assert (Hl2 : live h2 p).
  { split; [exact Hpn|]. rewrite (MemFacts.store_lookup _ _ _ _ _ Est).
    destruct (decide (event_p = p)); [contradiction|].
    simpl. rewrite lookup_insert_eq. eauto. }
  destruct (MemFacts.store_success p ev h2 Hl2) as (h3 & Est2).
  assert (Hld : load event_p h2 = Some p).
  { rewrite (MemFacts.load_store _ _ _ _ _ Est).
    destruct (decide (event_p = event_p)); [reflexivity | contradiction]. }
  assert (Hld3 : load p h3 = Some ev).
  { rewrite (MemFacts.load_store _ _ _ _ _ Est2).
    destruct (decide (p = p)); [reflexivity | contradiction]. }
  assert (Hldp : load event_p h3 = Some p).
  { rewrite (MemFacts.load_store _ _ _ _ _ Est2).
    destruct (decide (p = event_p)); [congruence | exact Hld]. }
  assert (Hav : avail h3 = avail (mem s) - sizeof_cl_event).
  { rewrite (MemFacts.store_avail _ _ _ _ Est2), (MemFacts.store_avail _ _ _ _ Est).
    reflexivity. }
  subst ev err.
  destruct (clCreateUserEvent api (my_device_ctx s) (dev s)) as [[ev err] d1] eqn:Hc.
  simpl in *.
  destruct (clSetUserEventStatus api ev CL_COMPLETE d1) as [r2 d2] eqn:Es.
  assert (Hrun : acc_event_create api event_p s
                 = if acc_opencl_error_check err 38
                   then Some (-1, State h3 err (my_device_ctx s) d1)
                   else Some (0, State h3 r2 (my_device_ctx s) d2)).
  { unfold acc_event_create, bind, m_malloc, m_store, m_load, get_ctx, call,
      set_cl_error, get_cl_error, ret.
    rewrite Em. simpl. rewrite Est. simpl. rewrite Hld. simpl.
    rewrite Hc. simpl. rewrite Est2. simpl.
    destruct (acc_opencl_error_check err 38); [reflexivity|].
    simpl. rewrite Hld3. simpl. rewrite Es. reflexivity. }
  destruct (acc_opencl_error_check err 38) eqn:C.
  - apply (error_check_true _ 38) in C.
    eexists _, _, p. split; [exact Hrun|]. simpl. repeat split; auto.
  - apply (error_check_false _ 38) in C.
    eexists _, _, p. split; [exact Hrun|]. simpl. repeat split; auto; try lia.
Qed.

(** X6.  A query whose two device calls succeed returns 0, and what it stores
    in the caller's [int] depends on the allocator alone: 1 when the scratch
    buffer of the size the device asked for could not be allocated, 0 when it
    could -- whatever status the device wrote into the buffer.  The buffer is
    freed again: the allocator has the same bytes as before and no block but
    the caller's [int] has changed. *)
Theorem query_answer_and_balance (event has_occured : Z) (s : state D)
    (ev n : Z) (b : block) (x : option Z) (d1 : D) :
  load event (mem s) = Some ev ->
  has_occured <> NULL ->
  cells (mem s) !! has_occured = Some b ->
  clGetEventInfo api ev CL_EVENT_COMMAND_EXECUTION_STATUS 0 NULL true (dev s)
    = ((CL_SUCCESS, x, Some n), d1) ->
  let n' := (n * sizeof_char) mod SIZE_T_MODULUS in
  let pv := fst (malloc n' (mem s)) in
  fst (fst (fst (clGetEventInfo api ev CL_EVENT_COMMAND_EXECUTION_STATUS n pv false d1)))
    = CL_SUCCESS ->
  exists s',
    acc_event_query api event has_occured s = Some (0, s') /\
    load has_occured (mem s') = Some (if avail (mem s) <? n' then 1 else 0) /\
    avail (mem s') = avail (mem s) /\
    forall q, q <> has_occured -> cells (mem s') !! q = cells (mem s) !! q.
Proof.
  intros Hld Hn Hb H1 n' pv H2.
  pose proof (MemFacts.load_live _ _ _ Hld) as [Hen [be Hbe]].
  unfold acc_event_query, bind, m_load, call, set_cl_error, get_cl_error,
    m_local, m_malloc, m_store, m_free, ret.
  rewrite Hld. cbn [dev mem cl_error my_device_ctx]. rewrite H1.
  cbn [dev mem cl_error my_device_ctx].
  change (acc_opencl_error_check CL_SUCCESS 135) with false. norm.
  fold n'.
  destruct (MemFacts.malloc_cases n' (mem s))
    as [[Hlt Em]|[Hle (p & Hpn & Hfresh & Em)]].
  - (* no buffer *)
    subst pv. rewrite Em in H2 |- *. cbn [fst] in H2. norm.
    rewrite Hld. norm.
    destruct (clGetEventInfo api ev CL_EVENT_COMMAND_EXECUTION_STATUS n NULL false d1)
      as [[[c2 data] sz2] d2]. simpl in H2. subst c2.
    assert (Hans : (if avail (mem s) <? n' then 1 else 0) = 1)
      by (destruct (Z.ltb_spec (avail (mem s)) n'); [reflexivity | lia]).
    rewrite Hans.
    destruct data as [v|]; norm; try change (NULL =? NULL) with true; norm;
      change (acc_opencl_error_check CL_SUCCESS 140) with false; norm;
      change (NULL =? CL_COMPLETE) with true; norm;
      rewrite (MemFacts.store_exact _ _ _ _ Hn Hb); norm;
      change (free NULL ?h) with (Some h); norm;
      (eexists; split; [reflexivity|]; cbn [mem cells avail];
       split; [|split; [reflexivity|]];
       [ unfold load; destruct (Z.eqb_spec has_occured NULL); [contradiction|];
         cbn [cells]; rewrite lookup_insert_eq; reflexivity
       | intros q Hq; apply lookup_insert_ne; congruence ]).
  - (* buffer at [p] *)
    subst pv. rewrite Em in H2 |- *. cbn [fst] in H2. norm.
    assert (Hpe : p <> event) by (intros ->; congruence).
    assert (Hph : p <> has_occured) by (intros ->; congruence).
    erewrite (MemFacts.load_exact event);
      [|exact Hen|cbn [cells]; rewrite lookup_insert_ne by exact Hpe; exact Hbe].
    assert (Hv : blk_val be = Some ev).
    { rewrite <- Hld. symmetry. apply MemFacts.load_exact; assumption. }
    rewrite Hv. norm.
    destruct (clGetEventInfo api ev CL_EVENT_COMMAND_EXECUTION_STATUS n p false d1)
      as [[[c2 data] sz2] d2]. simpl in H2. subst c2.
    assert (Hans : (if avail (mem s) <? n' then 1 else 0) = 0)
      by (destruct (Z.ltb_spec (avail (mem s)) n'); [lia | reflexivity]).
    rewrite Hans.
    assert (Hpz : (p =? NULL) = false) by (apply Z.eqb_neq; exact Hpn).
    assert (Hpc : (p =? CL_COMPLETE) = false) by (apply Z.eqb_neq; exact Hpn).
    destruct data as [v|]; norm; rewrite ?Hpz; norm;
      try (erewrite MemFacts.store_exact; [|exact Hpn|apply lookup_insert_eq];
           cbn [cells avail blk_size blk_heap]; norm);
      change (acc_opencl_error_check CL_SUCCESS 140) with false; norm;
      rewrite Hpc; norm;
      (erewrite MemFacts.store_exact;
         [|exact Hn
          |cbn [cells]; rewrite ?lookup_insert_ne by exact Hph; exact Hb]);
      norm;
      (erewrite MemFacts.free_exact;
         [|exact Hpn
          |cbn [cells]; rewrite lookup_insert_ne by congruence; apply lookup_insert_eq
          |reflexivity]);
      (eexists; split; [reflexivity|]; cbn [mem cells avail blk_size];
       split; [|split; [lia|]];
       [ unfold load; destruct (Z.eqb_spec has_occured NULL); [contradiction|];
         cbn [cells]; rewrite lookup_delete_ne by exact Hph;
         rewrite lookup_insert_eq; reflexivity
       | intros q Hq; destruct (decide (q = p)) as [->|Hqp];
         [ rewrite lookup_delete_eq; congruence
         | rewrite lookup_delete_ne by congruence;
           rewrite !lookup_insert_ne by congruence; reflexivity ] ]).
Qed.

(** X7.  When the first [clGetEventInfo] succeeds, the scratch buffer is
    allocated and the second [clGetEventInfo] fails, [acc_event_query]
    returns -1 at once: the buffer is not freed (its bytes stay taken and the
    block stays allocated) and nothing is stored in the caller's [int]. *)
Theorem query_failure_leaks_buffer (event has_occured : Z) (s : state D)
    (ev n : Z) (x : option Z) (d1 : D) :
  load event (mem s) = Some ev ->
  clGetEventInfo api ev CL_EVENT_COMMAND_EXECUTION_STATUS 0 NULL true (dev s)
    = ((CL_SUCCESS, x, Some n), d1) ->
  let n' := (n * sizeof_char) mod SIZE_T_MODULUS in
  let pv := fst (malloc n' (mem s)) in
  let c2 :=
    fst (fst (fst (clGetEventInfo api ev CL_EVENT_COMMAND_EXECUTION_STATUS n pv false d1))) in
  n' <= avail (mem s) ->
  c2 <> CL_SUCCESS ->
  exists s',
    acc_event_query api event has_occured s = Some (-1, s') /\
    cl_error s' = c2 /\
    avail (mem s') = avail (mem s) - n' /\
    cells (mem s) !! pv = None /\
    (exists y, cells (mem s') !! pv = Some (Block n' y true)) /\
    forall q, q <> pv -> cells (mem s') !! q = cells (mem s) !! q.
Proof.
  intros Hld H1 n' pv c2 Hroom Hc2.
  pose proof (MemFacts.load_live _ _ _ Hld) as [Hen [be Hbe]].
  unfold acc_event_query, bind, m_load, call, set_cl_error, get_cl_error,
    m_local, m_malloc, m_store, m_free, ret.
  rewrite Hld. norm. rewrite H1. norm.
  change (acc_opencl_error_check CL_SUCCESS 135) with false. norm. fold n'.
  destruct (MemFacts.malloc_cases n' (mem s))
    as [[Hlt _]|[_ (p & Hpn & Hfresh & Em)]]; [lia|].
  subst c2 pv. rewrite Em in Hc2 |- *. cbn [fst] in Hc2 |- *. norm.
  assert (Hpe : p <> event) by (intros ->; congruence).
  erewrite (MemFacts.load_exact event);
    [|exact Hen|cbn [cells]; rewrite lookup_insert_ne by exact Hpe; exact Hbe].
  assert (Hv : blk_val be = Some ev).
  { rewrite <- Hld. symmetry. apply MemFacts.load_exact; assumption. }
  rewrite Hv. norm.
  destruct (clGetEventInfo api ev CL_EVENT_COMMAND_EXECUTION_STATUS n p false d1)
    as [[[c2 data] sz2] d2]. simpl in Hc2.
  assert (Hchk : acc_opencl_error_check c2 140 = true)
    by (apply (error_check_true _ 140); exact Hc2).
  assert (Hpz : (p =? NULL) = false) by (apply Z.eqb_neq; exact Hpn).
  destruct data as [v|]; norm; rewrite ?Hpz; norm;
    try (erewrite MemFacts.store_exact; [|exact Hpn|apply lookup_insert_eq];
         cbn [cells avail blk_size blk_heap]; norm);
    rewrite Hchk; norm;
    (eexists; split; [reflexivity|]; cbn [mem cells avail cl_error];
     split; [reflexivity|]; split; [reflexivity|]; split; [exact Hfresh|];
     split;
     [ eexists; rewrite ?insert_insert_eq; apply lookup_insert_eq
     | intros q Hq; rewrite !lookup_insert_ne by congruence; reflexivity ]).
Qed.

(** X8.  [acc_event_record] on a readable stream object and a live handle
    always returns, with -1 exactly when [clEnqueueMarker] reports an error.
    That call is the only one made to the device: the device is left as
    [clEnqueueMarker] left it, so the event stored in the handle before is
    not released.  What the device writes through the handle replaces that
    event, and nothing else in host memory changes; nothing is allocated or
    freed. *)
Theorem record_replaces_stored_event (event stream : Z) (s : state D)
    (queue : Z) (be : block) :
  load stream (mem s) = Some queue ->
  event <> NULL ->
  cells (mem s) !! event = Some be ->
  let c := fst (fst (clEnqueueMarker api queue event (dev s))) in
  let w := snd (fst (clEnqueueMarker api queue event (dev s))) in
  exists r s',
    acc_event_record api event stream s = Some (r, s') /\
    (r = 0 \/ r = -1) /\
    (r = -1 <-> c <> CL_SUCCESS) /\
    cl_error s' = c /\
    dev s' = snd (clEnqueueMarker api queue event (dev s)) /\
    avail (mem s') = avail (mem s) /\
    load event (mem s') = match w with Some e => Some e | None => blk_val be end /\
    forall q, q <> event -> cells (mem s') !! q = cells (mem s) !! q.
Proof.
  intros Hq Hn Hb c w.
  unfold acc_event_record, bind, m_load, call, m_store, set_cl_error,
    get_cl_error, ret.
  rewrite Hq. norm. subst c w.
  destruct (clEnqueueMarker api queue event (dev s)) as [[c w] d1]. norm.
  assert (Hcases : (acc_opencl_error_check c 100 = true /\ c <> CL_SUCCESS) \/
                   (acc_opencl_error_check c 100 = false /\ c = CL_SUCCESS)).
  { destruct (acc_opencl_error_check c 100) eqn:C.
    - left. split; [reflexivity|]. apply (error_check_true _ 100), C.
    - right. split; [reflexivity|]. apply (error_check_false _ 100), C. }
  destruct w as [e|]; norm.
  - rewrite (MemFacts.store_exact _ _ _ _ Hn Hb). norm.
    destruct Hcases as [[-> Hc]|[-> Hc]];
      (eexists _, _; split; [reflexivity|]; cbn [mem cells avail cl_error dev];
       split; [auto|]; split; [split; [auto; try lia | auto]; try lia|];
       split; [reflexivity|]; split; [reflexivity|]; split; [reflexivity|]; split;
       [ unfold load; destruct (Z.eqb_spec event NULL); [contradiction|];
         cbn [cells]; rewrite lookup_insert_eq; reflexivity
       | intros q Hne; apply lookup_insert_ne; congruence ]).
  - destruct Hcases as [[-> Hc]|[-> Hc]];
      (eexists _, _; split; [reflexivity|]; cbn [mem cells avail cl_error dev];
       split; [auto|]; split; [split; [auto; try lia | auto]; try lia|];
       split; [reflexivity|]; split; [reflexivity|]; split; [reflexivity|]; split;
       [ apply MemFacts.load_exact; assumption | reflexivity ]).
Qed.


(** X10.  Whatever fails on a handle, the handle can still be destroyed: if
    destroy, record, query, stream wait or synchronize returns -1 on a handle
    that pointed to an initialised [malloc] block, a following
    [acc_event_destroy] on it stays within defined behaviour and returns a
    status. *)
Theorem failed_operation_leaves_destroy_defined
    (o : event_op) (event : Z) (s s' : state D) :
  match o with
  | Create _ => False
  | Destroy e | Record_ e _ | Query e _ | WaitEvent _ e | Synchronize e => e = event
  end ->
  destroyable (mem s) event ->
  run_op api o s = Some (-1, s') ->
  destroyable (mem s') event /\
  exists r s'', acc_event_destroy api event s' = Some (r, s'').
Proof.
  intros Ho Hd H.
  pose proof (failure_keeps_destroyable api o event s s' Ho Hd H) as Hd'.
  split; [exact Hd'|]. apply destroy_defined, Hd'.
Qed.

End AnyDevice.

Lemma after_create_handle :
  cells (mem RefCL.after_create) !! 41 = Some (Block 8 (Some 1) true).
Proof. vm_compute. reflexivity. Qed.

Lemma destroy_frees_exactly_the_handle_witness :
  let s := RefCL.after_create in
  let c := fst (clReleaseEvent RefCL.api 1 (dev s)) in
  exists r s',
    acc_event_destroy RefCL.api 41 s = Some (r, s') /\
    cl_error s' = c /\
    dev s' = snd (clReleaseEvent RefCL.api 1 (dev s)) /\
    (c <> CL_SUCCESS -> r = -1 /\ mem s' = mem s) /\
    (c = CL_SUCCESS ->
       r = 0 /\ cells (mem s') !! 41 = None /\
       avail (mem s') = avail (mem s) + 8 /\
       forall q, q <> 41 -> cells (mem s') !! q = cells (mem s) !! q).
Proof.
  apply (destroy_frees_exactly_the_handle RefCL.api 41 RefCL.after_create 8 1).
  - unfold NULL. lia.
  - exact after_create_handle.
Defined.

Lemma use_after_destroy_is_undefined_witness :
  exists s',
    acc_event_destroy RefCL.api 41 RefCL.after_create = Some (0, s') /\
    acc_event_destroy RefCL.api 41 s' = None /\
    (forall has_occured, acc_event_query RefCL.api 41 has_occured s' = None) /\
    acc_event_synchronize RefCL.api 41 s' = None /\
    (forall stream, acc_stream_wait_event RefCL.api stream 41 s' = None).
Proof.
  eexists. split; [vm_compute; reflexivity|].
  apply (use_after_destroy_is_undefined RefCL.api 41 RefCL.after_create).
  vm_compute. reflexivity.
Defined.

Lemma create_destroy_round_trip_witness :
  exists s2,
    acc_event_destroy RefCL.api 41 RefCL.after_create = Some (0, s2) /\
    avail (mem s2) = avail (mem (RefCL.bench 64 [])) /\
    load 16 (mem s2) = Some 41 /\
    cells (mem (RefCL.bench 64 [])) !! 41 = None /\ cells (mem s2) !! 41 = None /\
    forall q, q <> 16 -> cells (mem s2) !! q = cells (mem (RefCL.bench 64 [])) !! q.
Proof.
  destruct (acc_event_destroy RefCL.api 41 RefCL.after_create) as [[r s2]|] eqn:E.
  - assert (Hr : RefCL.status (acc_event_destroy RefCL.api 41 RefCL.after_create)
                 = Some 0) by (vm_compute; reflexivity).
    rewrite E in Hr. simpl in Hr. inversion Hr; subst r.
    exists s2. split; [reflexivity|].
    apply (create_destroy_round_trip RefCL.api 16 (RefCL.bench 64 [])
             RefCL.after_create s2 0 41).
    + apply bench_live_handle.
    + vm_compute. reflexivity.
    + vm_compute. reflexivity.
    + exact E.
  - vm_compute in E. discriminate.
Defined.

Lemma create_without_memory_is_undefined_witness :
  acc_event_create RefCL.api 16 (RefCL.bench 4 []) = None.
Proof.
  apply (create_without_memory_is_undefined RefCL.api 16 (RefCL.bench 4 [])).
  - apply bench_live_handle.
  - simpl. unfold sizeof_cl_event. lia.
Defined.

Lemma create_returns_and_keeps_block_witness :
  let s := RefCL.bench 64 [CL_OUT_OF_RESOURCES] in
  let ev := fst (fst (clCreateUserEvent RefCL.api (my_device_ctx s) (dev s))) in
  let err := snd (fst (clCreateUserEvent RefCL.api (my_device_ctx s) (dev s))) in
  exists r s' p,
    acc_event_create RefCL.api 16 s = Some (r, s') /\
    (r = 0 \/ r = -1) /\
    (r = -1 <-> err <> CL_SUCCESS) /\
    load 16 (mem s') = Some p /\
    load p (mem s') = Some ev /\
    avail (mem s') = avail (mem s) - sizeof_cl_event.
Proof.
  apply (create_returns_and_keeps_block RefCL.api 16
           (RefCL.bench 64 [CL_OUT_OF_RESOURCES])).
  - apply bench_live_handle.
  - simpl. unfold sizeof_cl_event. lia.
Defined.

Lemma query_answer_and_balance_witness :
  let s := RefCL.after_create in
  let n' := (4 * sizeof_char) mod SIZE_T_MODULUS in
  exists s',
    acc_event_query RefCL.api 41 24 s = Some (0, s') /\
    load 24 (mem s') = Some (if avail (mem s) <? n' then 1 else 0) /\
    avail (mem s') = avail (mem s) /\
    forall q, q <> 24 -> cells (mem s') !! q = cells (mem s) !! q.
Proof.
  apply (query_answer_and_balance RefCL.api 41 24 RefCL.after_create 1 4
           (Block 4 None false) None (dev RefCL.after_create)).
  - vm_compute. reflexivity.
  - unfold NULL. lia.
  - vm_compute. reflexivity.
  - vm_compute. reflexivity.
  - vm_compute. reflexivity.
Defined.

Lemma query_failure_leaks_buffer_witness :
  let s := RefCL.after_create_then [CL_SUCCESS; CL_OUT_OF_RESOURCES] in
  let d1 := snd (clGetEventInfo RefCL.api 1 CL_EVENT_COMMAND_EXECUTION_STATUS
                   0 NULL true (dev s)) in
  let n' := (4 * sizeof_char) mod SIZE_T_MODULUS in
  let pv := fst (malloc n' (mem s)) in
  let c2 :=
    fst (fst (fst (clGetEventInfo RefCL.api 1 CL_EVENT_COMMAND_EXECUTION_STATUS
                     4 pv false d1))) in
  exists s',
    acc_event_query RefCL.api 41 24 s = Some (-1, s') /\
    cl_error s' = c2 /\
    avail (mem s') = avail (mem s) - n' /\
    cells (mem s) !! pv = None /\
    (exists y, cells (mem s') !! pv = Some (Block n' y true)) /\
    forall q, q <> pv -> cells (mem s') !! q = cells (mem s) !! q.
Proof.
  apply (query_failure_leaks_buffer RefCL.api 41 24
           (RefCL.after_create_then [CL_SUCCESS; CL_OUT_OF_RESOURCES]) 1 4 None).
  - vm_compute. reflexivity.
  - vm_compute. reflexivity.
  - vm_compute. discriminate.
  - vm_compute. discriminate.
Defined.

Lemma record_replaces_stored_event_witness :
  let s := RefCL.after_create in
  let c := fst (fst (clEnqueueMarker RefCL.api 7 41 (dev s))) in
  let w := snd (fst (clEnqueueMarker RefCL.api 7 41 (dev s))) in
  exists r s',
    acc_event_record RefCL.api 41 32 s = Some (r, s') /\
    (r = 0 \/ r = -1) /\
    (r = -1 <-> c <> CL_SUCCESS) /\
    cl_error s' = c /\
    dev s' = snd (clEnqueueMarker RefCL.api 7 41 (dev s)) /\
    avail (mem s') = avail (mem s) /\
    load 41 (mem s') = match w with Some e => Some e | None => Some 1 end /\
    forall q, q <> 41 -> cells (mem s') !! q = cells (mem s) !! q.
Proof.
  apply (record_replaces_stored_event RefCL.api 41 32 RefCL.after_create 7
           (Block 8 (Some 1) true)).
  - vm_compute. reflexivity.
  - unfold NULL. lia.
  - exact after_create_handle.
Defined.


Lemma failed_operation_leaves_destroy_defined_witness :
  let s := RefCL.after_create_then [CL_OUT_OF_RESOURCES] in
  exists s',
    run_op RefCL.api (Synchronize 41) s = Some (-1, s') /\
    destroyable (mem s') 41 /\
    exists r s'', acc_event_destroy RefCL.api 41 s' = Some (r, s'').
Proof.
  eexists. split; [vm_compute; reflexivity|].
  apply (failed_operation_leaves_destroy_defined RefCL.api (Synchronize 41) 41
           (RefCL.after_create_then [CL_OUT_OF_RESOURCES])).
  - reflexivity.
  - split; [unfold NULL; lia|]. exists 8, 1. vm_compute. reflexivity.
  - vm_compute. reflexivity.
Defined.

End AccOpenCLMore.

(** * Further properties of the offload-region macros *)
Module LibxstreamMore.
Import UB UB.Notations Libxstream LibxstreamFacts.

Lemma signal_tags_app (a b : list offload) :
  signal_tags (a ++ b) = signal_tags a ++ signal_tags b.
Proof.
  induction a as [|o a IH]; simpl; [reflexivity|].
  destruct (o_signal o); simpl; rewrite IH; reflexivity.
Qed.

Lemma seqZ_one (m : Z) : seqZ m 1 = [m].
Proof. rewrite seqZ_cons by lia. rewrite seqZ_nil by lia. reflexivity. Qed.

(** The declarations, for a region without a stream and for a region on a
    live stream. *)
Lemma decl_null (st : strategy) (r : offload_region) (w : world) :
  stream_ r = 0 ->
  LIBXSTREAM_OFFLOAD_DECL st r w = Some (entry_locals st r None, w).
Proof.
  intros Hz. unfold LIBXSTREAM_OFFLOAD_DECL. rewrite Hz.
  destruct st; reflexivity.
Qed.

Lemma decl_live (st : strategy) (r : offload_region) (w : world)
    (s : libxstream_stream) :
  stream_ r <> 0 ->
  streams w !! stream_ r = Some s ->
  LIBXSTREAM_OFFLOAD_DECL st r w
  = Some (entry_locals st r (Some s),
          match st with
          | Synchronous => w
          | _ => World (<[stream_ r := snd (next_signal s)]> (streams w)) (issued w)
          end).
Proof.
  intros Hp Hs. pose proof (negb_eqb_true _ Hp) as Hnz.
  set (s1 := snd (next_signal s)).
  set (w1 := World (<[stream_ r := s1]> (streams w)) (issued w)).
  assert (Hs1 : streams w1 !! stream_ r = Some s1) by apply lookup_insert_eq.
  unfold LIBXSTREAM_OFFLOAD_DECL. rewrite Hnz. destruct st.
  - rewrite (bind_eq _ _ _ _ _ (call_device_eq w _ s Hs)). reflexivity.
  - rewrite (bind_eq _ _ _ _ _ (call_device_eq w _ s Hs)).
    rewrite (bind_eq _ _ _ _ _ (call_signal_eq w _ s Hs)).
    rewrite (bind_eq _ _ _ _ _ (call_pending_eq _ _ s1 Hs1)).
    reflexivity.
  - rewrite (bind_eq _ _ _ _ _ (call_device_eq w _ s Hs)).
    rewrite (bind_eq _ _ _ _ _ (call_signal_eq w _ s Hs)).
    rewrite (bind_eq _ _ _ _ _ (call_pending_eq _ _ s1 Hs1)).
    rewrite (bind_eq _ _ _ _ _ (call_handle_eq _ _ s1 Hs1)).
    reflexivity.
Qed.

Lemma decl_dangling (st : strategy) (r : offload_region) (w : world) :
  stream_ r <> 0 ->
  streams w !! stream_ r = None ->
  LIBXSTREAM_OFFLOAD_DECL st r w = None.
Proof.
  intros Hp Hs. unfold LIBXSTREAM_OFFLOAD_DECL. rewrite (negb_eqb_true _ Hp).
  destruct st; unfold bind; cbv beta iota; unfold call_device, bind, deref;
    rewrite Hs; reflexivity.
Qed.

(** The body, with everything it keeps: the store, the snapshot, the pending
    value and the handle read at entry; its offloads carry the clauses their
    macros allow, and their signal tags count up from the value of [signal_]
    at entry. *)
Ltac clause_tac :=
  first
    [ symmetry; apply seqZ_one
    | constructor; [|constructor]; simpl;
      first [ solve [auto]
            | split; [reflexivity|]; right; split; [reflexivity | discriminate] ] ].

Lemma exec_clauses (st : strategy) (c : stmt) :
  forall (l : locals) (w : world),
  exists l' new,
    exec st c l w = Some (l', World (streams w) (new ++ issued w)) /\
    signal_consumed_ l' = signal_consumed_ l /\
    pending_ l' = pending_ l /\
    handle_ l' = handle_ l /\
    signal_ l' = signal_ l + Z.of_nat (consumed new) /\
    signal_tags (rev new) = seqZ (signal_ l) (Z.of_nat (consumed new)) /\
    Forall (clause_ok st (handle_ l) (pending_ l)) new.
Proof.
  induction c as [|a IHa b IHb| | | |d|a IHa b IHb]; intros l w.
  - exists l, []. destruct w; simpl. repeat split; try reflexivity; try lia.
    constructor.
  - destruct (IHa l w) as (l1 & n1 & E1 & C1 & P1 & H1 & S1 & T1 & F1).
    destruct (IHb l1 (World (streams w) (n1 ++ issued w)))
      as (l2 & n2 & E2 & C2 & P2 & H2 & S2 & T2 & F2).
    exists l2, (n2 ++ n1). simpl. unfold bind at 1. rewrite E1, E2. simpl.
    rewrite <- app_assoc. rewrite consumed_app.
    split; [reflexivity|]. split; [congruence|]. split; [congruence|].
    split; [congruence|]. split; [lia|]. split.
    + rewrite rev_app_distr, signal_tags_app, T1, T2, S1.
      replace (Z.of_nat (consumed n2 + consumed n1))
        with (Z.of_nat (consumed n1) + Z.of_nat (consumed n2)) by lia.
      symmetry. apply seqZ_app; lia.
    + apply Forall_app. split; [|exact F1]. rewrite <- H1, <- P1. exact F2.
  - exists l, [LIBXSTREAM_OFFLOAD_TARGET st l]. simpl.
    repeat split; try reflexivity.
    + destruct st; simpl; lia.
    + destruct st; reflexivity.
    + constructor; [|constructor]. destruct st; simpl; auto.
  - destruct st; simpl.
    + exists l, [Offload (device_ l) None None None]. simpl.
      repeat split; try reflexivity; try lia.
      constructor; [|constructor]. simpl. auto.
    + eexists _, [_]. simpl. repeat split; try reflexivity; try clause_tac.
    + eexists _, [_]. simpl. repeat split; try reflexivity; try clause_tac.
  - destruct st; simpl.
    + exists l, [Offload (device_ l) None None None]. simpl.
      repeat split; try reflexivity; try lia.
      constructor; [|constructor]. simpl. auto.
    + eexists _, [_]. simpl. repeat split; try reflexivity; try clause_tac.
    + eexists _, [_]. simpl. repeat split; try reflexivity; try clause_tac.
  - exists (LIBXSTREAM_OFFLOAD_DEVICE_UPDATE d l), []. destruct w; simpl.
    repeat split; try reflexivity; try lia. constructor.
  - simpl. destruct (LIBXSTREAM_OFFLOAD_READY l); [apply IHa | apply IHb].
Qed.

(** A whole region without a stream. *)
Lemma run_null (st : strategy) (r : offload_region) (w : world) :
  stream_ r = 0 ->
  let l0 := entry_locals st r None in
  exists l new,
    run_region st r w = Some (l, World (streams w) (new ++ issued w)) /\
    signal_consumed_ l = signal_consumed_ l0 /\
    signal_ l = signal_ l0 + Z.of_nat (consumed new) /\
    signal_tags (rev new) = seqZ (signal_ l0) (Z.of_nat (consumed new)) /\
    Forall (clause_ok st (handle_ l0) (pending_ l0)) new.
Proof.
  intros Hz l0.
  destruct (exec_clauses st (body r) l0 w) as (l & new & E & C & P & H & S & T & F).
  exists l, new. unfold run_region.
  rewrite (bind_eq _ _ _ _ _ (decl_null st r w Hz)). fold l0.
  rewrite (bind_eq _ _ _ _ _ E).
  unfold LIBXSTREAM_OFFLOAD_END. rewrite Hz. simpl.
  repeat split; assumption.
Qed.

(** A whole region on a live stream. *)
Lemma run_live (st : strategy) (r : offload_region) (w : world)
    (s : libxstream_stream) :
  stream_ r <> 0 ->
  streams w !! stream_ r = Some s ->
  let l0 := entry_locals st r (Some s) in
  exists l new,
    run_region st r w
    = Some (l, World (<[stream_ r :=
                          match st with
                          | Synchronous => s
                          | _ => if Nat.eqb (consumed new) 0
                                 then snd (next_signal s)
                                 else mark_pending (signal_consumed_ l0)
                                                   (snd (next_signal s))
                          end]> (streams w))
                     (new ++ issued w)) /\
    signal_consumed_ l = signal_consumed_ l0 /\
    signal_ l = signal_ l0 + Z.of_nat (consumed new) /\
    signal_tags (rev new) = seqZ (signal_ l0) (Z.of_nat (consumed new)) /\
    Forall (clause_ok st (handle_ l0) (pending_ l0)) new.
Proof.
  intros Hp Hs l0. pose proof (negb_eqb_true _ Hp) as Hnz.
  unfold run_region. rewrite (bind_eq _ _ _ _ _ (decl_live st r w s Hp Hs)). fold l0.
  destruct st.
  - destruct (exec_clauses Synchronous (body r) l0 w)
      as (l & new & E & C & P & H & S & T & F).
    exists l, new. rewrite (bind_eq _ _ _ _ _ E).
    pose proof (exec_sync_no_signal _ _ _ _ _ E) as S0.
    assert (Heq : (signal_ l =? signal_consumed_ l) = true)
      by (apply Z.eqb_eq; rewrite C, S0; reflexivity).
    unfold LIBXSTREAM_OFFLOAD_END. rewrite Hnz, Heq. simpl.
    rewrite (insert_id _ _ _ Hs). split; [reflexivity|]. repeat split; assumption.
  - set (s1 := snd (next_signal s)).
    set (w1 := World (<[stream_ r := s1]> (streams w)) (issued w)).
    assert (Hs1 : streams w1 !! stream_ r = Some s1) by apply lookup_insert_eq.
    destruct (exec_clauses Asynchronous (body r) l0 w1)
      as (l & new & E & C & P & H & S & T & F).
    exists l, new. rewrite (bind_eq _ _ _ _ _ E).
    unfold LIBXSTREAM_OFFLOAD_END. rewrite Hnz. cbn [andb].
    split; [|repeat split; assumption].
    destruct (Nat.eqb_spec (consumed new) 0) as [Hc|Hc].
    + replace (signal_ l =? signal_consumed_ l) with true
        by (symmetry; apply Z.eqb_eq; rewrite C, S; simpl; lia).
      reflexivity.
    + replace (signal_ l =? signal_consumed_ l) with false
        by (symmetry; apply Z.eqb_neq; rewrite C, S; simpl; lia).
      cbn [negb].
      rewrite (bind_eq _ _ _ _ _
                 (call_set_pending_eq (World (streams w1) (new ++ issued w1))
                                      _ s1 Hs1 (signal_consumed_ l))).
      unfold ret. simpl. rewrite insert_insert_eq, C. reflexivity.
  - set (s1 := snd (next_signal s)).
    set (w1 := World (<[stream_ r := s1]> (streams w)) (issued w)).
    assert (Hs1 : streams w1 !! stream_ r = Some s1) by apply lookup_insert_eq.
    destruct (exec_clauses CompilerStreams (body r) l0 w1)
      as (l & new & E & C & P & H & S & T & F).
    exists l, new. rewrite (bind_eq _ _ _ _ _ E).
    unfold LIBXSTREAM_OFFLOAD_END. rewrite Hnz. cbn [andb].
    split; [|repeat split; assumption].
    destruct (Nat.eqb_spec (consumed new) 0) as [Hc|Hc].
    + replace (signal_ l =? signal_consumed_ l) with true
        by (symmetry; apply Z.eqb_eq; rewrite C, S; simpl; lia).
      reflexivity.
    + replace (signal_ l =? signal_consumed_ l) with false
        by (symmetry; apply Z.eqb_neq; rewrite C, S; simpl; lia).
      cbn [negb].
      rewrite (bind_eq _ _ _ _ _
                 (call_set_pending_eq (World (streams w1) (new ++ issued w1))
                                      _ s1 Hs1 (signal_consumed_ l))).
      unfold ret. simpl. rewrite insert_insert_eq, C. reflexivity.
Qed.

Ltac pow_consts :=
  change (2 ^ 64) with 18446744073709551616 in *;
  change (2 ^ 63) with 9223372036854775808 in *;
  change (2 ^ 62) with 4611686018427387904 in *.

Lemma pp_fit_constant (u : bool) :
  pp_fit u 1 = 1 /\ pp_fit u 2 = 2.
Proof. destruct u; split; reflexivity. Qed.

Ltac level_tac :=
  unfold pp_level, pp_div, pp_add, pp_mul, pp_binary, pp_neg;
  cbn [pp_unsigned pp_value orb fmap option_fmap option_map];
  rewrite ?(proj1 (pp_fit_constant _)), ?(proj2 (pp_fit_constant _));
  unfold pp_fit.

Ltac range_tac :=
  repeat match goal with
         | |- context [?a <=? ?b] => destruct (Z.leb_spec a b)
         | |- context [?a =? ?b] => destruct (Z.eqb_spec a b)
         end; try lia;
  split; Z.to_euclidean_division_equations; lia.

(** The level [(2*v+1)/2] over the whole range of constants that have a
    value: where nothing wraps it is [v] for [v >= 0] and [v+1] for [v < 0];
    beyond 2^62 in size the doubling wraps, and from 2^63 on the constant is
    unsigned. *)
Lemma level_by_range (v : Z) :
  - 2 ^ 64 < v < 2 ^ 64 ->
  exists u lv,
    async_level (DefinedAs v) = PP u lv /\
    pp_fit u lv = lv /\
    lv =
      if v <=? - 2 ^ 63 - 1 then v + 2 ^ 64
      else if v =? - 2 ^ 63 then 0
      else if v <=? - 2 ^ 62 - 1 then v + 2 ^ 63
      else if v <=? -1 then v + 1
      else if v <=? 2 ^ 62 - 1 then v
      else if v <=? 2 ^ 63 - 1 then v + 1 - 2 ^ 63
      else v - 2 ^ 63.
Proof.
  intros Hv. unfold async_level, pp_replacement, pp_constant.
  pow_consts.
  destruct (Z.leb_spec 0 v) as [H0|H0].
  - destruct (Z.ltb_spec v 9223372036854775808) as [H1|H1].
    + eexists _, _. split; [reflexivity|]. level_tac. pow_consts. range_tac.
    + destruct (Z.ltb_spec v 18446744073709551616) as [H2|H2]; [|lia].
      eexists _, _. split; [reflexivity|]. level_tac. pow_consts. range_tac.
  - destruct (Z.ltb_spec (- v) 9223372036854775808) as [H1|H1].
    + eexists _, _. split; [reflexivity|]. level_tac. pow_consts. range_tac.
    + destruct (Z.ltb_spec (- v) 18446744073709551616) as [H2|H2]; [|lia].
      eexists _, _. split; [reflexivity|]. level_tac. pow_consts. range_tac.
Qed.

Lemma pp_eq_small (k : Z) (u : bool) (lv : Z) :
  0 <= k < 2 ^ 63 -> pp_fit u lv = lv ->
  pp_eq (PP false k) (PP u lv) = (k =? lv).
Proof.
  intros Hk Hlv. unfold pp_eq. cbn [pp_unsigned pp_value orb]. rewrite Hlv.
  replace (pp_fit u k) with k; [reflexivity|].
  unfold pp_fit. pow_consts. destruct u; Z.to_euclidean_division_equations; lia.
Qed.

Lemma chosen_by_level (lv : Z) (P0 P1 P2 : Prop) :
  (lv = 0 <-> P0) -> (lv = 1 <-> P1) -> (lv = 2 <-> P2) ->
  let chosen :=
    if negb (0 =? lv) then
      if 1 =? lv then Some Asynchronous
      else if 2 =? lv then Some CompilerStreams
      else None
    else Some Synchronous in
  (chosen = Some Synchronous <-> P0) /\
  (chosen = Some Asynchronous <-> P1) /\
  (chosen = Some CompilerStreams <-> P2) /\
  (chosen = None <-> ~ (P0 \/ P1 \/ P2)).
Proof.
  intros H0 H1 H2.
  assert (A0 : lv = 0 -> P0) by apply H0.
  assert (A1 : lv = 1 -> P1) by apply H1.
  assert (A2 : lv = 2 -> P2) by apply H2.
  assert (B0 : P0 -> lv = 0) by apply H0.
  assert (B1 : P1 -> lv = 1) by apply H1.
  assert (B2 : P2 -> lv = 2) by apply H2.
  clear H0 H1 H2.
  destruct (Z.eqb_spec 0 lv) as [E0|E0], (Z.eqb_spec 1 lv) as [E1|E1],
    (Z.eqb_spec 2 lv) as [E2|E2]; cbn [negb]; try lia;
    first [ assert (p0 : P0) by (apply A0; lia)
          | assert (n0 : ~ P0) by (intros p; apply B0 in p; lia) ];
    first [ assert (p1 : P1) by (apply A1; lia)
          | assert (n1 : ~ P1) by (intros p; apply B1 in p; lia) ];
    first [ assert (p2 : P2) by (apply A2; lia)
          | assert (n2 : ~ P2) by (intros p; apply B2 in p; lia) ];
    clear A0 A1 A2 B0 B1 B2;
    repeat split; intros; try discriminate; try reflexivity; try tauto;
    exfalso; tauto.
Qed.

(** X11.  What the preprocessor block selects.  Without offload support or
    without LIBXSTREAM_ASYNC the synchronous macros; with an empty
    LIBXSTREAM_ASYNC the asynchronous ones.  With a decimal constant [v]
    (a minus sign in front for a negative one) that has a value in the
    preprocessor, the tests are on [(2*v+1)/2] in 64-bit arithmetic:
    truncation makes -1 select the synchronous macros like 0 does, and where
    [2*v+1] wraps or the constant is unsigned a few values at the ends of
    the range do the same as 0, 1 and 2.  The three lists are complete: any
    other constant leaves none of the LIBXSTREAM_OFFLOAD_* macros defined. *)
Theorem select_strategy_by_value (v : Z) :
  - 2 ^ 64 < v < 2 ^ 64 ->
  let chosen := select_strategy true (DefinedAs v) in
  (chosen = Some Synchronous <->
   v = 0 \/ v = -1 \/ v = 2 ^ 63 - 1 \/ v = 2 ^ 63 \/ v = - 2 ^ 63) /\
  (chosen = Some Asynchronous <->
   v = 1 \/ v = 2 ^ 63 + 1 \/ v = - 2 ^ 63 + 1 \/ v = - 2 ^ 64 + 1) /\
  (chosen = Some CompilerStreams <->
   v = 2 \/ v = 2 ^ 63 + 2 \/ v = - 2 ^ 63 + 2 \/ v = - 2 ^ 64 + 2) /\
  (chosen = None <->
   ~ In v [0; -1; 2 ^ 63 - 1; 2 ^ 63; - 2 ^ 63;
           1; 2 ^ 63 + 1; - 2 ^ 63 + 1; - 2 ^ 64 + 1;
           2; 2 ^ 63 + 2; - 2 ^ 63 + 2; - 2 ^ 64 + 2]) /\
  select_strategy false (DefinedAs v) = Some Synchronous /\
  (forall offload, select_strategy offload NotDefined = Some Synchronous) /\
  select_strategy true DefinedEmpty = Some Asynchronous /\
  select_strategy false DefinedEmpty = Some Synchronous.
Proof.
  intros Hv chosen. subst chosen.
  destruct (level_by_range v Hv) as (u & lv & Hl & Hfit & Hlv).
  unfold select_strategy. rewrite Hl. cbv zeta. cbn [andb is_defined].
  rewrite !(pp_eq_small _ u lv) by (pow_consts; first [lia | exact Hfit]).
  assert (Hsel :
    (lv = 0 <-> v = 0 \/ v = -1 \/ v = 2 ^ 63 - 1 \/ v = 2 ^ 63 \/ v = - 2 ^ 63) /\
    (lv = 1 <-> v = 1 \/ v = 2 ^ 63 + 1 \/ v = - 2 ^ 63 + 1 \/ v = - 2 ^ 64 + 1) /\
    (lv = 2 <-> v = 2 \/ v = 2 ^ 63 + 2 \/ v = - 2 ^ 63 + 2 \/ v = - 2 ^ 64 + 2)).
  { clear Hl Hfit. revert Hlv. pow_consts.
    repeat match goal with
           | |- context [?a <=? ?b] => destruct (Z.leb_spec a b)
           | |- context [?a =? ?b] => destruct (Z.eqb_spec a b)
           end; intros ->; lia. }
  destruct Hsel as (H0 & H1 & H2).
  destruct (chosen_by_level lv _ _ _ H0 H1 H2) as (C0 & C1 & C2 & C3).
  split; [exact C0|]. split; [exact C1|]. split; [exact C2|].
  split.
  { rewrite C3. cbn [In]. clear. intuition auto. }
  split; [reflexivity|].
  split; [intros offload; destruct offload; reflexivity|].
  split; reflexivity.
Qed.

(** X12.  Under the synchronous macros a region, with or without a stream
    and whatever its body, runs to its end without changing any stream (no
    signal is drawn and pending is never set), and none of its offloads
    carries a [stream], [signal] or [wait] clause. *)
Theorem sync_region_leaves_streams_alone (r : offload_region) (w : world) :
  stream_ r = 0 \/ is_Some (streams w !! stream_ r) ->
  exists l new,
    run_region Synchronous r w = Some (l, World (streams w) (new ++ issued w)) /\
    Forall (fun o => o_stream o = None /\ o_signal o = None /\ o_wait o = None) new.
Proof.
  intros Hcase.
  destruct (Z.eq_dec (stream_ r) 0) as [Hz|Hp].
  - destruct (run_null Synchronous r w Hz) as (l & new & E & _ & _ & _ & F).
    exists l, new. split; [exact E | exact F].
  - destruct Hcase as [Hz|[s Hs]]; [contradiction|].
    destruct (run_live Synchronous r w s Hp Hs) as (l & new & E & _ & _ & _ & F).
    exists l, new. rewrite (insert_id _ _ _ Hs) in E. split; [exact E | exact F].
Qed.

(** X13.  Under the asynchronous and the compiler-stream macros, the signal
    clauses a region on a stream issues are numbered consecutively from the
    snapshot [signal_consumed_], in program order; when there is at least
    one, the pending value left in the stream is the first of them, however
    many followed. *)
Theorem signal_tags_count_up_from_snapshot
    (st : strategy) (r : offload_region) (w : world) (s : libxstream_stream) :
  st <> Synchronous ->
  stream_ r <> 0 ->
  streams w !! stream_ r = Some s ->
  exists l new s',
    run_region st r w
      = Some (l, World (<[stream_ r := s']> (streams w)) (new ++ issued w)) /\
    signal_tags (rev new) = seqZ (signal_consumed_ l) (Z.of_nat (consumed new)) /\
    (consumed new <> 0%nat -> head (signal_tags (rev new)) = Some (pending s')).
Proof.
  intros Hst Hp Hs.
  destruct (run_live st r w s Hp Hs) as (l & new & E & C & S & T & F).
  destruct st; [contradiction| |];
    (eexists l, new, _; split; [exact E|]; simpl in C, T; split;
     [ rewrite C; exact T
     | intros Hc; rewrite T;
       destruct (Nat.eqb_spec (consumed new) 0); [contradiction|];
       rewrite seqZ_cons by lia; reflexivity ]).
Qed.

(** X14.  Under the asynchronous macros no offload of a region on a stream
    carries a [stream] clause, and a [wait] clause, where there is one,
    waits for the pending value the stream had when the region started and
    comes together with a [signal] clause. *)
Theorem async_offloads_wait_for_entry_pending
    (r : offload_region) (w : world) (s : libxstream_stream) :
  stream_ r <> 0 ->
  streams w !! stream_ r = Some s ->
  exists l new w',
    run_region Asynchronous r w = Some (l, w') /\
    issued w' = new ++ issued w /\
    Forall (fun o => o_stream o = None /\
                     (o_wait o = None \/
                      (o_wait o = Some (pending s) /\ o_signal o <> None))) new.
Proof.
  intros Hp Hs.
  destruct (run_live Asynchronous r w s Hp Hs) as (l & new & E & _ & _ & _ & F).
  eexists l, new, _. split; [exact E|]. split; [reflexivity | exact F].
Qed.

(** X15.  Under the compiler-stream macros every offload of a region on a
    stream carries the [stream] clause of that stream's handle, and none
    carries a [wait] clause: LIBXSTREAM_OFFLOAD_TARGET_WAIT is the same as
    LIBXSTREAM_OFFLOAD_TARGET_SIGNAL there. *)
Theorem compiler_stream_offloads_never_wait
    (r : offload_region) (w : world) (s : libxstream_stream) :
  stream_ r <> 0 ->
  streams w !! stream_ r = Some s ->
  exists l new w',
    run_region CompilerStreams r w = Some (l, w') /\
    issued w' = new ++ issued w /\
    Forall (fun o => o_stream o = Some (handle s) /\ o_wait o = None) new.
Proof.
  intros Hp Hs.
  destruct (run_live CompilerStreams r w s Hp Hs) as (l & new & E & _ & _ & _ & F).
  eexists l, new, _. split; [exact E|]. split; [reflexivity | exact F].
Qed.

(** The body without LIBXSTREAM_OFFLOAD_DEVICE_UPDATE keeps [device_] and
    sends every offload there. *)
Lemma exec_targets (st : strategy) (c : stmt) :
  updates_device c = false ->
  forall (l : locals) (w : world) l' w',
    exec st c l w = Some (l', w') ->
    device_ l' = device_ l /\
    exists new, issued w' = new ++ issued w /\
                Forall (fun o => o_device o = device_ l) new.
Proof.
  induction c as [|a IHa b IHb| | | |d|a IHa b IHb]; intros Hu l w l' w' E;
    simpl in Hu, E.
  - inversion E; subst. split; [reflexivity|]. exists []. split; [reflexivity|constructor].
  - apply orb_false_iff in Hu as [Ha Hb].
    unfold bind in E. destruct (exec st a l w) as [[l1 w1]|] eqn:E1; [|discriminate].
    destruct (IHa Ha _ _ _ _ E1) as (D1 & n1 & I1 & F1).
    destruct (IHb Hb _ _ _ _ E) as (D2 & n2 & I2 & F2).
    split; [congruence|]. exists (n2 ++ n1). split.
    + rewrite I2, I1. apply app_assoc.
    + apply Forall_app. split; [rewrite <- D1; exact F2 | exact F1].
  - inversion E; subst. split; [reflexivity|].
    eexists [_]. split; [reflexivity|]. constructor; [|constructor].
    destruct st; reflexivity.
  - destruct st; inversion E; subst; (split; [reflexivity|]);
      (eexists [_]; split; [reflexivity|]; constructor; [reflexivity|constructor]).
  - destruct st; inversion E; subst; (split; [reflexivity|]);
      (eexists [_]; split; [reflexivity|]; constructor; [reflexivity|constructor]).
  - discriminate.
  - apply orb_false_iff in Hu as [Ha Hb].
    destruct (LIBXSTREAM_OFFLOAD_READY l); [eapply IHa | eapply IHb]; eassumption.
Qed.

(** X16.  A region whose body never uses LIBXSTREAM_OFFLOAD_DEVICE_UPDATE
    sends every one of its offloads to the device its declarations resolved:
    the device of its stream when it has one, [val<int,0>()] when it has
    none -- under each of the three strategies. *)
Theorem offloads_target_resolved_device
    (st : strategy) (r : offload_region) (w : world) (l : locals) (w' : world) :
  updates_device (body r) = false ->
  run_region st r w = Some (l, w') ->
  exists new,
    issued w' = new ++ issued w /\
    (stream_ r = 0 -> Forall (fun o => o_device o = val_int_0 r) new) /\
    (forall s, stream_ r <> 0 -> streams w !! stream_ r = Some s ->
               Forall (fun o => o_device o = device s) new).
Proof.
  intros Hu H. unfold run_region in H.
  unfold bind in H.
  destruct (LIBXSTREAM_OFFLOAD_DECL st r w) as [[l0 w1]|] eqn:Ed; [|discriminate].
  destruct (exec st (body r) l0 w1) as [[l1 w2]|] eqn:Ee; [|discriminate].
  destruct (LIBXSTREAM_OFFLOAD_END r l1 w2) as [[u w3]|] eqn:En; [|discriminate].
  inversion H; subst l1 w3; clear H.
  destruct (exec_targets st (body r) Hu _ _ _ _ Ee) as (_ & new & I & F).
  assert (I3 : issued w' = issued w2).
  { unfold LIBXSTREAM_OFFLOAD_END in En.
    destruct (negb (stream_ r =? 0) && negb (signal_ l =? signal_consumed_ l)).
    - unfold call_set_pending, bind, deref, assign in En.
      destruct (streams w2 !! stream_ r); [|discriminate].
      inversion En; reflexivity.
    - inversion En; reflexivity. }
  exists new. split; [|split].
  - rewrite I3, I. f_equal.
    destruct (Z.eq_dec (stream_ r) 0) as [Hz|Hp].
    + rewrite (decl_null st r w Hz) in Ed. inversion Ed; reflexivity.
    + destruct (streams w !! stream_ r) as [s|] eqn:Hs;
        [|rewrite (decl_dangling st r w Hp Hs) in Ed; discriminate].
      rewrite (decl_live st r w s Hp Hs) in Ed.
      destruct st; inversion Ed; reflexivity.
  - intros Hz. rewrite (decl_null st r w Hz) in Ed. inversion Ed; subst l0.
    exact F.
  - intros s Hp Hs. rewrite (decl_live st r w s Hp Hs) in Ed.
    inversion Ed; subst l0. destruct st; exact F.
Qed.

(** X17.  A region only ever touches the stream it was created on: every
    other stream of the store is, after the region has run, exactly what it
    was before -- under each strategy and for every body. *)
Theorem region_touches_only_its_stream
    (st : strategy) (r : offload_region) (w : world) (l : locals) (w' : world) :
  run_region st r w = Some (l, w') ->
  forall q, q <> stream_ r -> streams w' !! q = streams w !! q.
Proof.
  intros H q Hq.
  destruct (Z.eq_dec (stream_ r) 0) as [Hz|Hp].
  - destruct (run_null st r w Hz) as (l1 & new & E & _).
    rewrite E in H. inversion H; subst. reflexivity.
  - destruct (streams w !! stream_ r) as [s|] eqn:Hs.
    + destruct (run_live st r w s Hp Hs) as (l1 & new & E & _).
      rewrite E in H. inversion H; subst. simpl.
      apply lookup_insert_ne. congruence.
    + exfalso. unfold run_region, bind in H.
      rewrite (decl_dangling st r w Hp Hs) in H. discriminate.
Qed.

(** X18.  LIBXSTREAM_OFFLOAD_READY tests the pending value read at entry.
    In a region without a stream, and under the synchronous macros, it is
    always true, so the else branch of [if (LIBXSTREAM_OFFLOAD_READY)] never
    runs; in a region on a stream under the two other strategies the branch
    is chosen by whether the stream's pending marker was 0 when the region
    started. *)
Theorem ready_chooses_branch_by_entry_pending
    (st : strategy) (p v : Z) (a b : stmt) (w : world) :
  (p = 0 \/ st = Synchronous ->
     run_region st (Region p v (if_ready a b)) w = run_region st (Region p v a) w) /\
  (forall s, p <> 0 -> st <> Synchronous -> streams w !! p = Some s ->
     run_region st (Region p v (if_ready a b)) w
     = run_region st (Region p v (if pending s =? 0 then a else b)) w).
Proof.
  split.
  - intros Hcase. unfold run_region.
    destruct (Z.eq_dec p 0) as [Hz|Hp].
    + rewrite (bind_eq _ _ _ _ _ (decl_null st (Region p v (if_ready a b)) w Hz)).
      rewrite (bind_eq _ _ _ _ _ (decl_null st (Region p v a) w Hz)).
      destruct st; reflexivity.
    + destruct Hcase as [Hz | ->]; [contradiction|].
      destruct (streams w !! p) as [s|] eqn:Hs.
      * rewrite (bind_eq _ _ _ _ _
                   (decl_live Synchronous (Region p v (if_ready a b)) w s Hp Hs)).
        rewrite (bind_eq _ _ _ _ _
                   (decl_live Synchronous (Region p v a) w s Hp Hs)).
        reflexivity.
      * unfold bind.
        rewrite (decl_dangling Synchronous (Region p v (if_ready a b)) w Hp Hs).
        rewrite (decl_dangling Synchronous (Region p v a) w Hp Hs). reflexivity.
  - intros s Hp Hst Hs. unfold run_region.
    rewrite (bind_eq _ _ _ _ _
               (decl_live st (Region p v (if_ready a b)) w s Hp Hs)).
    rewrite (bind_eq _ _ _ _ _
               (decl_live st (Region p v (if pending s =? 0 then a else b)) w s Hp Hs)).
    destruct st; [contradiction| |]; cbn [body entry_locals exec];
      unfold LIBXSTREAM_OFFLOAD_READY, LIBXSTREAM_OFFLOAD_PENDING; cbn [pending_];
      rewrite Z.eqb_sym; destruct (pending s =? 0); reflexivity.
Qed.

Lemma busy_stream : streams busy_world !! 8 = Some (Stream 1 5 3 0).
Proof. reflexivity. Qed.

Lemma select_strategy_by_value_witness :
  let v := 2 ^ 63 + 1 in
  let chosen := select_strategy true (DefinedAs v) in
  - 2 ^ 64 < v < 2 ^ 64 /\
  (chosen = Some Synchronous <->
   v = 0 \/ v = -1 \/ v = 2 ^ 63 - 1 \/ v = 2 ^ 63 \/ v = - 2 ^ 63) /\
  (chosen = Some Asynchronous <->
   v = 1 \/ v = 2 ^ 63 + 1 \/ v = - 2 ^ 63 + 1 \/ v = - 2 ^ 64 + 1) /\
  (chosen = Some CompilerStreams <->
   v = 2 \/ v = 2 ^ 63 + 2 \/ v = - 2 ^ 63 + 2 \/ v = - 2 ^ 64 + 2) /\
  (chosen = None <->
   ~ In v [0; -1; 2 ^ 63 - 1; 2 ^ 63; - 2 ^ 63;
           1; 2 ^ 63 + 1; - 2 ^ 63 + 1; - 2 ^ 64 + 1;
           2; 2 ^ 63 + 2; - 2 ^ 63 + 2; - 2 ^ 64 + 2]) /\
  select_strategy false (DefinedAs v) = Some Synchronous /\
  (forall offload, select_strategy offload NotDefined = Some Synchronous) /\
  select_strategy true DefinedEmpty = Some Asynchronous /\
  select_strategy false DefinedEmpty = Some Synchronous.
Proof.
  split; [lia|]. apply (select_strategy_by_value (2 ^ 63 + 1)). lia.
Defined.

Lemma sync_region_leaves_streams_alone_witness :
  exists l new,
    run_region Synchronous
        (Region 8 7 (seq offload_target_signal
                         (if_ready offload_target_wait offload_target))) busy_world
      = Some (l, World (streams busy_world) (new ++ issued busy_world)) /\
    Forall (fun o => o_stream o = None /\ o_signal o = None /\ o_wait o = None) new.
Proof.
  apply (sync_region_leaves_streams_alone
           (Region 8 7 (seq offload_target_signal
                            (if_ready offload_target_wait offload_target)))
           busy_world).
  right. exists (Stream 1 5 3 0). reflexivity.
Defined.

Lemma signal_tags_count_up_from_snapshot_witness :
  let r := Region 8 0 (seq offload_target_signal offload_target_wait) in
  exists l new s',
    run_region Asynchronous r busy_world
      = Some (l, World (<[8 := s']> (streams busy_world)) (new ++ issued busy_world)) /\
    signal_tags (rev new) = seqZ (signal_consumed_ l) (Z.of_nat (consumed new)) /\
    (consumed new <> 0%nat -> head (signal_tags (rev new)) = Some (pending s')).
Proof.
  apply (signal_tags_count_up_from_snapshot Asynchronous
           (Region 8 0 (seq offload_target_signal offload_target_wait))
           busy_world (Stream 1 5 3 0)).
  - discriminate.
  - simpl. lia.
  - reflexivity.
Defined.

Lemma async_offloads_wait_for_entry_pending_witness :
  let r := Region 8 0 (seq offload_target_wait offload_target) in
  exists l new w',
    run_region Asynchronous r busy_world = Some (l, w') /\
    issued w' = new ++ issued busy_world /\
    Forall (fun o => o_stream o = None /\
                     (o_wait o = None \/
                      (o_wait o = Some (pending (Stream 1 5 3 0)) /\
                       o_signal o <> None))) new.
Proof.
  apply (async_offloads_wait_for_entry_pending
           (Region 8 0 (seq offload_target_wait offload_target))
           busy_world (Stream 1 5 3 0)).
  - simpl. lia.
  - reflexivity.
Defined.

Lemma compiler_stream_offloads_never_wait_witness :
  let r := Region 8 0 (seq offload_target_wait offload_target) in
  exists l new w',
    run_region CompilerStreams r busy_world = Some (l, w') /\
    issued w' = new ++ issued busy_world /\
    Forall (fun o => o_stream o = Some (handle (Stream 1 5 3 0)) /\
                     o_wait o = None) new.
Proof.
  apply (compiler_stream_offloads_never_wait
           (Region 8 0 (seq offload_target_wait offload_target))
           busy_world (Stream 1 5 3 0)).
  - simpl. lia.
  - reflexivity.
Defined.

Lemma offloads_target_resolved_device_witness :
  let r := Region 8 7 (seq offload_target_signal offload_target) in
  exists l w' new,
    run_region Asynchronous r busy_world = Some (l, w') /\
    issued w' = new ++ issued busy_world /\
    (stream_ r = 0 -> Forall (fun o => o_device o = val_int_0 r) new) /\
    (forall s, stream_ r <> 0 -> streams busy_world !! stream_ r = Some s ->
               Forall (fun o => o_device o = device s) new).
Proof.
  intros r.
  destruct (run_region Asynchronous r busy_world) as [[l w']|] eqn:E.
  - destruct (offloads_target_resolved_device Asynchronous r busy_world l w'
                eq_refl E) as (new & H).
    exists l, w', new. split; [reflexivity | exact H].
  - vm_compute in E. discriminate.
Defined.

Lemma region_touches_only_its_stream_witness :
  let w := World (<[16 := Stream 2 9 0 0]> (streams busy_world)) [] in
  exists l w',
    run_region Asynchronous (Region 8 0 offload_target_signal) w = Some (l, w') /\
    forall q, q <> 8 -> streams w' !! q = streams w !! q.
Proof.
  intros w.
  destruct (run_region Asynchronous (Region 8 0 offload_target_signal) w)
    as [[l w']|] eqn:E.
  - exists l, w'. split; [reflexivity|].
    apply (region_touches_only_its_stream Asynchronous
             (Region 8 0 offload_target_signal) w l w' E).
  - vm_compute in E. discriminate.
Defined.

Lemma ready_chooses_branch_by_entry_pending_witness :
  run_region Synchronous (Region 8 0 (if_ready offload_target offload_target_wait))
      busy_world
    = run_region Synchronous (Region 8 0 offload_target) busy_world /\
  run_region Asynchronous (Region 8 0 (if_ready offload_target offload_target_wait))
      busy_world
    = run_region Asynchronous
        (Region 8 0 (if pending (Stream 1 5 3 0) =? 0
                     then offload_target else offload_target_wait)) busy_world.
Proof.
  destruct (ready_chooses_branch_by_entry_pending Synchronous 8 0
              offload_target offload_target_wait busy_world) as [H1 _].
  destruct (ready_chooses_branch_by_entry_pending Asynchronous 8 0
              offload_target offload_target_wait busy_world) as [_ H2].
  split.
  - apply H1. right. reflexivity.
  - apply H2; [lia | discriminate | reflexivity].
Defined.

End LibxstreamMore.
